(** * Keyboard layout distance files (scripts/generate_keyboard_layout.py)

    A shallow embedding of the generator of [keyboard_<layout>.bin]: the
    position model, the 26x26 distance matrix, the byte layout of the file
    and the command line driver, with the properties of the specification
    stated and proved over it. *)

From Stdlib Require Import ZArith Lia Ascii String.
From Stdlib.Strings Require Import Byte.
From stdpp Require Import base decidable option list gmap strings sorting pretty.

Local Open Scope Z_scope.
Local Open Scope string_scope.

(** ** Built-in layouts *)

(** [list("qwertyuiop")]: the list of the one-character strings of a string. *)
Fixpoint chars (s : string) : list string :=
  match s with
  | EmptyString => []
  | String a s' => String a EmptyString :: chars s'
  end.

Definition QWERTY_ROWS : list (list string) :=
  [chars "qwertyuiop"; chars "asdfghjkl"; chars "zxcvbnm"].

Definition AZERTY_ROWS : list (list string) :=
  [chars "azertyuiop"; chars "qsdfghjklm"; chars "wxcvbn"].

Definition QWERTZ_ROWS : list (list string) :=
  [chars "qwertzuiop"; chars "asdfghjkl"; chars "yxcvbnm"].

Definition DVORAK_ROWS : list (list string) :=
  [chars "pyfgcrl"; chars "aoeuidhtns"; chars "qjkxbmwvz"].

Definition COLEMAK_ROWS : list (list string) :=
  [chars "qwfpgjluy"; chars "arstdhneio"; chars "zxcvbkm"].

(** The dict [LAYOUTS]; a Python dict keeps insertion order, which the
    driver relies on when it iterates over the keys, hence an association
    list. *)
Definition LAYOUTS : list (string * list (list string)) :=
  [("qwerty", QWERTY_ROWS); ("azerty", AZERTY_ROWS); ("qwertz", QWERTZ_ROWS);
   ("dvorak", DVORAK_ROWS); ("colemak", COLEMAK_ROWS)].

(** ** Position model *)

(** [enumerate(l)] *)
Definition enumerate {A} (l : list A) : list (nat * A) :=
  zip (seq 0 (length l)) l.

Definition row_offsets : list Z := [0; 1; 3].

(** [row_offsets[row_idx] if row_idx < len(row_offsets) else row_idx * 2] *)
Definition row_offset (row_idx : nat) : Z :=
  if decide (row_idx < length row_offsets)%nat
  then default 0 (row_offsets !! row_idx)
  else Z.of_nat row_idx * 2.

Definition get_key_positions (rows : list (list string))
  : gmap string (Z * Z) :=
  foldl (fun positions '(row_idx, row) =>
           let offset := row_offset row_idx in
           foldl (fun positions '(col_idx, key) =>
                    <[key := (Z.of_nat row_idx * 2,
                              Z.of_nat col_idx * 2 + offset)]> positions)
                 positions (enumerate row))
        ∅ (enumerate rows).

(** ** Distance matrix *)

(** [chr(ord('a') + i)] *)
Definition letter (i : nat) : string :=
  String (ascii_of_nat (97 + i)) EmptyString.

(** The value the body of the inner loop stores in [matrix[i][j]]; [None]
    when the body leaves the cell as it is. *)
Definition cell (positions : gmap string (Z * Z)) (i j : nat) : option Z :=
  let char_i := letter i in
  let char_j := letter j in
  if decide (i = j) then Some 0
  else match positions !! char_i, positions !! char_j with
       | Some pos_i, Some pos_j =>
           let row_diff := Z.abs (pos_i.1 - pos_j.1) in
           let col_diff := Z.abs (pos_i.2 - pos_j.2) in
           let chebyshev := Z.max row_diff col_diff in
           if decide (chebyshev <= 2) then Some 1
           else if decide (chebyshev <= 4) then Some 2
           else Some 255
       | _, _ => None
       end.

(** [matrix[i][j] = v] on a list of rows. *)
Definition set_cell (i j : nat) (v : Z) (matrix : list (list Z))
  : list (list Z) :=
  alter (fun row => <[j := v]> row) i matrix.

Definition compute_distance_matrix (rows : list (list string))
  : list (list Z) :=
  let positions := get_key_positions rows in
  let matrix := replicate 26 (replicate 26 255) in
  foldl (fun matrix i =>
           foldl (fun matrix j =>
                    match cell positions i j with
                    | Some v => set_cell i j v matrix
                    | None => matrix
                    end)
                 matrix (seq 0 26))
        matrix (seq 0 26).

(** [get_adjacent_keys]: for each letter the set of the letters at
    distance 1. *)
Definition get_adjacent_keys (rows : list (list string))
  : gmap string (gset string) :=
  let matrix := compute_distance_matrix rows in
  foldl (fun adjacent i =>
           let char_i := letter i in
           let neighbors :=
             foldl (fun neighbors j =>
                      if decide (matrix !! i ≫= (.!! j) = Some 1)
                      then neighbors ∪ {[letter j]}
                      else neighbors)
                   (∅ : gset string) (seq 0 26) in
           <[char_i := neighbors]> adjacent)
        ∅ (seq 0 26).

(** ** The world of the script: files, standard output, I/O failures *)

#[global] Instance byte_eq_dec : EqDecision byte := Byte.byte_eq_dec.

Inductive exn : Type :=
  | OSError
  | ValueError
  | StructError
  | KeyError (key : string)
  | SystemExit (code : Z).

Inductive result (A : Type) : Type :=
  | Ok (a : A)
  | Raise (e : exn).
Arguments Ok {A} a.
Arguments Raise {A} e.

(** [files] maps a path to the content of the regular file there; [stdout]
    holds the printed texts, oldest first; [buffers] holds, for every open
    file object, the bytes written to it that have not reached its file
    yet. [fail_at = Some n] says that the operating system refuses the
    [n]-th step from now on (counting from 0), [None] that it refuses
    none; a step is a request (creating the directories, opening a file,
    closing its descriptor, asking for its size) or the transfer of one
    byte from a buffer to its file. The script catches no exception, so
    one refusal is all a run can meet. *)
Record world : Type := MkWorld {
  files : gmap string (list byte);
  stdout : list string;
  fail_at : option nat;
  buffers : gmap string (list byte)
}.

(** The world between two calls of the script's functions: no file object
    is open. *)
Definition World (files : gmap string (list byte)) (stdout : list string)
    (fail_at : option nat) : world :=
  MkWorld files stdout fail_at ∅.

Definition IO (A : Type) : Type := world -> result A * world.

#[global] Instance IO_ret : MRet IO := fun A a w => (Ok a, w).
#[global] Instance IO_bind : MBind IO := fun A B f m w =>
  match m w with
  | (Ok a, w') => f a w'
  | (Raise e, w') => (Raise e, w')
  end.

Definition raise {A} (e : exn) : IO A := fun w => (Raise e, w).

Definition lift {A} (r : result A) : IO A := fun w => (r, w).

(** [try: m finally: fin] *)
Definition finally {A} (m : IO A) (fin : IO unit) : IO A := fun w =>
  match m w with
  | (r, w') =>
      match fin w' with
      | (Ok _, w'') => (r, w'')
      | (Raise e, w'') => (Raise e, w'')
      end
  end.

Fixpoint for_each {A} (l : list A) (body : A -> IO unit) : IO unit :=
  match l with
  | [] => mret tt
  | x :: l' => body x ;; for_each l' body
  end.

(** One step of the operating system: refused with [OSError] when the
    countdown [fail_at] is at 0. *)
Definition syscall : IO unit := fun w =>
  match fail_at w with
  | None => (Ok tt, w)
  | Some O => (Raise OSError, MkWorld (files w) (stdout w) None (buffers w))
  | Some (S n) => (Ok tt, MkWorld (files w) (stdout w) (Some n) (buffers w))
  end.

Definition get_files : IO (gmap string (list byte)) := fun w =>
  (Ok (files w), w).

Definition set_files (f : gmap string (list byte) -> gmap string (list byte))
  : IO unit := fun w =>
  (Ok tt, MkWorld (f (files w)) (stdout w) (fail_at w) (buffers w)).

Definition set_buffers (f : gmap string (list byte) -> gmap string (list byte))
  : IO unit := fun w =>
  (Ok tt, MkWorld (files w) (stdout w) (fail_at w) (f (buffers w))).

Definition print (line : string) : IO unit := fun w =>
  (Ok tt, MkWorld (files w) (stdout w ++ [line])%list (fail_at w) (buffers w)).

(** [os.makedirs(path, exist_ok=True)]; directories are not part of
    [files]. *)
Definition makedirs (path : string) : IO unit := syscall.

(** [open(path, 'wb')]: creates the file or truncates it, and returns a
    buffered file object, here represented by its path, with an empty
    buffer. *)
Definition open_wb (path : string) : IO string :=
  syscall ;;
  set_files (fun fs => <[path := []]> fs) ;;
  set_buffers (fun bs => <[path := []]> bs) ;;
  mret path.

(** [f.write(data)] on the buffered file object: the data joins the buffer
    and nothing is asked of the operating system. The capacity of the
    buffer (the block size of the device, commonly 4096 bytes, else 8192)
    is left out: the script writes 681 bytes to a file, which fit in it.
    Writing to a closed file object is a [ValueError]. *)
Definition f_write (f : string) (data : list byte) : IO unit := fun w =>
  match buffers w !! f with
  | Some pending => set_buffers (fun bs => <[f := (pending ++ data)%list]> bs) w
  | None => (Raise ValueError, w)
  end.

(** The buffer goes to the file. The operating system may stop taking
    bytes at any point, after which the write fails: the bytes taken so
    far stay in the file. *)
Fixpoint transfer (path : string) (data : list byte) : IO unit :=
  match data with
  | [] => mret tt
  | b :: data' =>
      syscall ;;
      set_files (fun fs => alter (fun old => (old ++ [b])%list) path fs) ;;
      transfer path data'
  end.

(** [f.close()]: the file object is closed whatever happens; its buffer is
    flushed to the file and the descriptor is closed, and a refusal of
    either raises [OSError]. Closing a closed file object does nothing. *)
Definition f_close (f : string) : IO unit := fun w =>
  match buffers w !! f with
  | Some pending =>
      (set_buffers (fun bs => delete f bs) ;; transfer f pending ;; syscall) w
  | None => (Ok tt, w)
  end.

(** [with open(path, 'wb') as f: body]: the file object is closed on the
    way out, also when [body] raises. *)
Definition with_open_wb {A} (path : string) (body : string -> IO A) : IO A :=
  f ← open_wb path; finally (body f) (f_close f).

(** [os.path.getsize(path)] *)
Definition getsize (path : string) : IO nat :=
  syscall ;;
  fs ← get_files;
  match fs !! path with
  | Some content => mret (length content)
  | None => raise OSError
  end.

(** ** The file format *)

Definition MAGIC : list byte := ["K"%byte; "Y"%byte; "B"%byte; "D"%byte].
Definition VERSION : Z := 1.

Definition byte_of_int (v : Z) : option byte :=
  if decide (0 <= v) then Byte.of_N (Z.to_N v) else None.

(** [struct.pack('B', v)] *)
Definition struct_pack_B (v : Z) : result (list byte) :=
  match byte_of_int v with
  | Some b => Ok [b]
  | None => Raise StructError
  end.

(** [bytes(row)] for a list of integers. *)
Definition bytes (row : list Z) : result (list byte) :=
  match mapM byte_of_int row with
  | Some bs => Ok bs
  | None => Raise ValueError
  end.

(** The body of the [with] block of [write_layout_file]. *)
Definition write_matrix (f : string) (matrix : list (list Z)) : IO unit :=
  f_write f MAGIC ;;
  (version ← lift (struct_pack_B VERSION); f_write f version) ;;
  for_each matrix (fun row => data ← lift (bytes row); f_write f data).

Definition write_layout_file (output_path : string) (rows : list (list string))
  : IO unit :=
  let matrix := compute_distance_matrix rows in
  with_open_wb output_path (fun f => write_matrix f matrix) ;;
  size ← getsize output_path;
  print ("  Written " +:+ pretty size +:+ " bytes to " +:+ output_path).

(** Modelled from the spec: the error kinds of the decoder of a layout
    file. The decoder belongs to the engine that loads the files and is not
    among the sources. *)
Inductive decode_error : Type :=
  | MalformedFile
  | TruncatedFile.

(** The size of a layout file: header and 26 rows of 26 bytes. *)
Definition FILE_SIZE : nat := 4 + 1 + 26 * 26.

Definition int_of_byte (b : byte) : Z := Z.of_N (Byte.to_N b).

(** Modelled from the spec: the decoder of a layout file, which is not
    among the sources. It fails with [TruncatedFile] when fewer than 681
    bytes are available, with [MalformedFile] when the magic tag or the
    version byte mismatches, and otherwise returns the 26 rows of 26
    distance classes of the payload. *)
Definition decode (data : list byte) : decode_error + list (list Z) :=
  if decide (length data < FILE_SIZE)%nat then inl TruncatedFile
  else if decide (take 4 data = MAGIC /\
                  int_of_byte <$> data !! 4%nat = Some VERSION)
  then
    let payload := drop 5 data in
    inr ((fun i => int_of_byte <$> take 26 (drop (26 * i) payload))
           <$> seq 0 26)
  else inl MalformedFile.

(** ** Reporting *)

Definition nl : string := String (ascii_of_nat 10) EmptyString.

(** [sep.join(l)] *)
Fixpoint join (sep : string) (l : list string) : string :=
  match l with
  | [] => ""
  | [s] => s
  | s :: l' => s +:+ sep +:+ join sep l'
  end.

(** [str.upper] on ASCII strings, where it changes the letters a to z
    only. Outside ASCII [str.upper] follows the case mapping of Unicode,
    which is not modelled: the statements about [upper] are for ASCII
    strings ([ascii_only]), as the names of [LAYOUTS] are. *)
Definition upper_ascii (a : ascii) : ascii :=
  let n := nat_of_ascii a in
  if decide (97 <= n <= 122)%nat then ascii_of_nat (n - 32) else a.

Fixpoint upper (s : string) : string :=
  match s with
  | EmptyString => EmptyString
  | String a s' => String (upper_ascii a) (upper s')
  end.

(** [sorted] on strings: the order of the code points. *)
Definition str_le (a b : string) : Prop := String.leb a b.

#[global] Instance str_le_dec a b : Decision (str_le a b) := _.
#[global] Instance str_le_po : PartialOrder str_le := String.le_po.
#[global] Instance str_le_total : Total str_le := String.le_total.

Definition sorted (l : list string) : list string := merge_sort str_le l.

Definition print_adjacency_info (layout_name : string)
    (rows : list (list string)) : IO unit :=
  let adjacent := get_adjacent_keys rows in
  print (nl +:+ upper layout_name +:+ " adjacency (distance 1):") ;;
  for_each (sorted (elements (dom adjacent))) (fun key =>
    match adjacent !! key with
    | Some neighbors =>
        print ("  " +:+ key +:+ ": " +:+ join ", " (sorted (elements neighbors)))
    | None => raise (KeyError key)
    end).

(** ** Command line driver *)

(** [os.path.join(a, b)] of posixpath. *)
Fixpoint ends_with_sep (s : string) : bool :=
  match s with
  | EmptyString => false
  | String a EmptyString => bool_decide (a = "/"%char)
  | String _ s' => ends_with_sep s'
  end.

Definition path_join (a b : string) : string :=
  if String.prefix "/" b then b
  else if bool_decide (a = "") || ends_with_sep a then a +:+ b
  else a +:+ "/" +:+ b.

(** The command line as the argument parser reads it, item by item: an
    occurrence of [--layout]/[-l] or of [--output]/[-o] with its value, of
    [--verbose]/[-v], of [-h]/[--help]; an option in a form the parser
    rejects as soon as it reads it ([--layout] or [--output] without a
    value, [--verbose] with one, an ambiguous abbreviation); and anything
    else, a positional argument or an unknown option, which the parser
    sets aside and rejects at the end. *)
Inductive cli_arg : Type :=
  | ArgLayout (value : string)
  | ArgOutput (value : string)
  | ArgVerbose
  | ArgHelp
  | ArgMalformed
  | ArgUnrecognized (text : string).

#[global] Instance cli_arg_eq_dec : EqDecision cli_arg.
Proof. solve_decision. Defined.

Record namespace : Type := Namespace {
  layout : string;
  output : string;
  verbose : bool
}.

(** [choices=list(LAYOUTS.keys()) + ["all"]] *)
Definition layout_choices : list string := (LAYOUTS.*1 ++ ["all"])%list.

(** [parser.format_help()], as Python 3.11 lays it out for a terminal of
    80 columns when the script is run under its file name. *)
Definition format_help : string :=
  "usage: generate_keyboard_layout.py [-h]" +:+ nl +:+
  "                                   [--layout {qwerty,azerty,qwertz,dvorak,colemak,all}]" +:+ nl +:+
  "                                   [--output OUTPUT] [--verbose]" +:+ nl +:+
  nl +:+
  "Generate keyboard layout binary files for spatial error weighting" +:+ nl +:+
  nl +:+
  "options:" +:+ nl +:+
  "  -h, --help            show this help message and exit" +:+ nl +:+
  "  --layout {qwerty,azerty,qwertz,dvorak,colemak,all}, -l {qwerty,azerty,qwertz,dvorak,colemak,all}" +:+ nl +:+
  "                        Keyboard layout to generate (default: all)" +:+ nl +:+
  "  --output OUTPUT, -o OUTPUT" +:+ nl +:+
  "                        Output directory for layout files" +:+ nl +:+
  "  --verbose, -v         Print adjacency information".

(** [parser.parse_args()], from the values [args] stored and the arguments
    [extras] set aside so far. Every occurrence of an option stores its
    value, so the last one wins. A [--layout] value outside [choices] and
    a malformed option are errors, on which the parser exits with status 2
    at once; [-h] prints the help and exits with status 0 at once;
    arguments set aside are an error at the end of the command line. The
    messages of the errors go to the standard error stream, which is not
    modelled. *)
Fixpoint parse_from (args : namespace) (extras : list string)
    (argv : list cli_arg) : IO namespace :=
  match argv with
  | [] => if decide (extras = []) then mret args else raise (SystemExit 2)
  | ArgLayout value :: argv' =>
      if decide (value ∈ layout_choices)
      then parse_from (Namespace value (output args) (verbose args)) extras argv'
      else raise (SystemExit 2)
  | ArgOutput value :: argv' =>
      parse_from (Namespace (layout args) value (verbose args)) extras argv'
  | ArgVerbose :: argv' =>
      parse_from (Namespace (layout args) (output args) true) extras argv'
  | ArgHelp :: _ => print format_help ;; raise (SystemExit 0)
  | ArgMalformed :: _ => raise (SystemExit 2)
  | ArgUnrecognized text :: argv' =>
      parse_from args (extras ++ [text])%list argv'
  end.

Definition parse_args (argv : list cli_arg) : IO namespace :=
  parse_from (Namespace "all" "./keyboard_layouts" false) [] argv.

(** [LAYOUTS[layout_name]] *)
Definition layouts_get (layout_name : string) : result (list (list string)) :=
  match list_find (fun entry => entry.1 = layout_name) LAYOUTS with
  | Some (_, (_, rows)) => Ok rows
  | None => Raise (KeyError layout_name)
  end.

Definition output_file (output_dir layout_name : string) : string :=
  path_join output_dir ("keyboard_" +:+ layout_name +:+ ".bin").

Definition generate_layout (args : namespace) (layout_name : string)
  : IO unit :=
  rows ← lift (layouts_get layout_name);
  let output_path := output_file (output args) layout_name in
  print ("Generating " +:+ layout_name +:+ "...") ;;
  write_layout_file output_path rows ;;
  if verbose args then print_adjacency_info layout_name rows else mret tt.

Definition main (argv : list cli_arg) : IO unit :=
  args ← parse_args argv;
  makedirs (output args) ;;
  let layouts_to_generate :=
    if decide (layout args = "all") then LAYOUTS.*1 else [layout args] in
  print "Generating keyboard layout files..." ;;
  print ("  Output directory: " +:+ output args) ;;
  print "" ;;
  for_each layouts_to_generate (generate_layout args) ;;
  print (nl +:+ "Done! Generated " +:+ pretty (length layouts_to_generate)
            +:+ " layout file(s).") ;;
  print (nl +:+ "Usage in Swift:") ;;
  print "  let symSpell = LowMemorySymSpell(" ;;
  print "      maxEditDistance: 2," ;;
  print "      prefixLength: 7," ;;
  print "      keyboardLayout: .qwerty" ;;
  print "  )".

(** ** Notions used by the statements *)

(** [matrix[i][j]] *)
Definition matrix_get (matrix : list (list Z)) (i j : nat) : option Z :=
  matrix !! i ≫= (.!! j).

(** The classification rule in the words of the specification: class 0 on
    the diagonal, 255 when a letter has no position, otherwise by the
    Chebyshev distance of the two coordinates. *)
Definition distance_class (positions : gmap string (Z * Z)) (i j : nat) : Z :=
  if decide (i = j) then 0
  else match positions !! letter i, positions !! letter j with
       | Some (row_i, col_i), Some (row_j, col_j) =>
           let cheb := Z.max (Z.abs (row_i - row_j)) (Z.abs (col_i - col_j)) in
           if decide (cheb <= 2) then 1
           else if decide (cheb <= 4) then 2
           else 255
       | _, _ => 255
       end.

(** The invariant of a layout definition: no key occurs twice. *)
Definition distinct_keys (rows : list (list string)) : Prop :=
  NoDup (concat rows).

(** [data] is the header followed by the rows of [matrix], one byte per
    cell. *)
Definition layout_image (matrix : list (list Z)) (data : list byte) : Prop :=
  exists payload : list (list byte),
    data = (MAGIC ++ ["001"%byte] ++ concat payload)%list /\
    ((fun chunk : list byte => int_of_byte <$> chunk) <$> payload) = matrix.

(** The data of the successive [f.write] calls of [write_layout_file]:
    the magic tag, the version byte, then one chunk per row. *)
Definition file_pieces (chunks : list (list byte)) : list (list byte) :=
  MAGIC :: ["001"%byte] :: chunks.

(** The line [write_layout_file] prints after writing [size] bytes. *)
Definition written_line (size : nat) (output_path : string) : string :=
  "  Written " +:+ pretty size +:+ " bytes to " +:+ output_path.

(** The command lines the parser accepts: the three options of the
    script, every [--layout] value among the choices. *)
Definition acceptable (arg : cli_arg) : Prop :=
  match arg with
  | ArgLayout value => value ∈ layout_choices
  | ArgOutput _ | ArgVerbose => True
  | ArgHelp | ArgMalformed | ArgUnrecognized _ => False
  end.

Definition accepted (argv : list cli_arg) : Prop := Forall acceptable argv.


(** What a command line asks for, read off the command line itself: the
    last [--layout] value, else [all]; the last [--output] value, else
    [./keyboard_layouts]; verbose when [--verbose] occurs. *)
Definition layout_values (argv : list cli_arg) : list string :=
  omap (fun arg => match arg with ArgLayout value => Some value | _ => None end)
       argv.

Definition output_values (argv : list cli_arg) : list string :=
  omap (fun arg => match arg with ArgOutput value => Some value | _ => None end)
       argv.

Definition requested (argv : list cli_arg) : namespace :=
  Namespace (default "all" (last (layout_values argv)))
            (default "./keyboard_layouts" (last (output_values argv)))
            (bool_decide (ArgVerbose ∈ argv)).

(** The strings of ASCII characters. *)
Definition ascii_only (s : string) : Prop :=
  Forall (fun a => (nat_of_ascii a < 128)%nat) (list_ascii_of_string s).

(** The layouts a parsed command line selects. *)
Definition selected_layouts (args : namespace) : list string :=
  if decide (layout args = "all") then LAYOUTS.*1 else [layout args].

(** The layout [layout_name] has been generated and reported: its file
    holds the 681 bytes of its matrix and the two lines of its report are
    on the standard output. *)
Definition generated (args : namespace) (layout_name : string)
    (fs : gmap string (list byte)) (out : list string) : Prop :=
  exists rows data,
    layouts_get layout_name = Ok rows /\
    fs !! output_file (output args) layout_name = Some data /\
    layout_image (compute_distance_matrix rows) data /\
    length data = 681%nat /\
    ("Generating " +:+ layout_name +:+ "...") ∈ out /\
    ("  Written 681 bytes to " +:+ output_file (output args) layout_name) ∈ out.

(** The file of the layout [layout_name] is there with its 681 bytes. *)
Definition complete_file (args : namespace) (fs : gmap string (list byte))
    (layout_name : string) : Prop :=
  exists data, fs !! output_file (output args) layout_name = Some data /\
               length data = 681%nat.

(** The inner loop of [get_adjacent_keys] for the letter [i], and its
    outer loop, over any matrix. *)
Definition neighbors_of (matrix : list (list Z)) (i : nat) : gset string :=
  foldl (fun neighbors j =>
           if decide (matrix !! i ≫= (.!! j) = Some 1)
           then neighbors ∪ {[letter j]}
           else neighbors)
        (∅ : gset string) (seq 0 26).

Definition adjacent_of (matrix : list (list Z)) : gmap string (gset string) :=
  foldl (fun adjacent i => <[letter i := neighbors_of matrix i]> adjacent)
        ∅ (seq 0 26).

(** Two runs end alike but for what they printed: same result, same
    files, same countdown of the I/O failure. *)
Definition same_outcome {A} (x y : result A * world) : Prop :=
  x.1 = y.1 /\ files x.2 = files y.2 /\ fail_at x.2 = fail_at y.2.

(** One turn of the inner loop seen on the row it updates: [g j] is the
    value the body stores in column [j], if any. *)
Definition row_step (g : nat -> option Z) (row : list Z) (j : nat) : list Z :=
  match g j with Some v => <[j := v]> row | None => row end.

(** The coordinate the position model gives to row [r], column [c]. *)
Definition coords (r c : nat) : Z * Z :=
  (Z.of_nat r * 2, Z.of_nat c * 2 + row_offset r).

(** The assignments [positions[key] = ...] in the order in which
    [get_key_positions] executes them. *)
Definition key_coords (rows : list (list string)) : list (string * (Z * Z)) :=
  enumerate rows ≫= fun '(r, row) =>
    (fun '(c, key) => (key, coords r c)) <$> enumerate row.

Definition insert_entry (positions : gmap string (Z * Z))
    (entry : string * (Z * Z)) : gmap string (Z * Z) :=
  <[entry.1 := entry.2]> positions.

(** * Properties *)

(** ** The loops of [compute_distance_matrix] *)

Section fill.
Context (g : nat -> option Z).

Lemma row_fold_length js row :
  length (foldl (row_step g) row js) = length row.
Proof.
  revert row. induction js as [|j js IH]; intros row; simpl; [done|].
  rewrite IH. unfold row_step. destruct (g j); [apply length_insert|done].
Qed.

Lemma row_fold_lookup js row k :
  NoDup js -> (k < length row)%nat ->
  foldl (row_step g) row js !! k =
    if decide (k ∈ js)
    then Some (default (default 0 (row !! k)) (g k))
    else row !! k.
Proof.
  revert row. induction js as [|j js IH]; intros row Hnd Hk; cbn [foldl].
  - rewrite decide_False; [done|]. apply not_elem_of_nil.
  - apply NoDup_cons in Hnd as [Hj Hnd].
    assert (Hlen : length (row_step g row j) = length row).
    { unfold row_step. destruct (g j); [apply length_insert|done]. }
    rewrite IH by (done || lia).
    destruct (decide (k = j)) as [->|Hne].
    + rewrite (decide_False (P := j ∈ js)) by done.
      rewrite (decide_True (P := j ∈ j :: js)) by left.
      unfold row_step. destruct (g j) as [v|] eqn:E; simpl.
      * by rewrite list_lookup_insert_eq.
      * destruct (lookup_lt_is_Some_2 row j Hk) as [x ->]. done.
    + assert (Hrow : row_step g row j !! k = row !! k).
      { unfold row_step. destruct (g j); [|done].
        by rewrite list_lookup_insert_ne. }
      rewrite Hrow.
      destruct (decide (k ∈ js)).
      * rewrite decide_True by (by right). done.
      * rewrite decide_False; [done|]. rewrite elem_of_cons. tauto.
Qed.

Lemma cell_fold_alter i js (matrix : list (list Z)) :
  foldl (fun matrix j =>
           match g j with
           | Some v => set_cell i j v matrix
           | None => matrix
           end) matrix js
  = alter (fun row => foldl (row_step g) row js) i matrix.
Proof.
  revert matrix. induction js as [|j js IH]; intros matrix; cbn [foldl].
  - symmetry. by apply list_alter_id.
  - rewrite IH. cbn [foldl].
    assert (Hstep : forall row, row_step g row j =
              match g j with Some v => <[j := v]> row | None => row end)
      by done.
    destruct (g j) as [v|].
    + unfold set_cell. rewrite list_alter_alter_eq.
      apply list_alter_ext; [|done]. intros row _. simpl. by rewrite Hstep.
    + apply list_alter_ext; [|done]. intros row _. by rewrite Hstep.
Qed.
End fill.

Lemma rows_fold_lookup (F : nat -> list Z -> list Z) idxs (matrix : list (list Z)) k :
  NoDup idxs ->
  foldl (fun matrix i => alter (F i) i matrix) matrix idxs !! k =
    if decide (k ∈ idxs) then F k <$> matrix !! k else matrix !! k.
Proof.
  revert matrix. induction idxs as [|i idxs IH]; intros matrix Hnd; cbn [foldl].
  - rewrite decide_False; [done|]. apply not_elem_of_nil.
  - apply NoDup_cons in Hnd as [Hi Hnd]. rewrite IH by done.
    destruct (decide (k = i)) as [->|Hne].
    + rewrite (decide_False (P := i ∈ idxs)) by done.
      rewrite (decide_True (P := i ∈ i :: idxs)) by left.
      apply list_lookup_alter_eq.
    + rewrite list_lookup_alter_ne by done.
      destruct (decide (k ∈ idxs)).
      * rewrite decide_True by (by right). done.
      * rewrite decide_False; [done|]. rewrite elem_of_cons. tauto.
Qed.

Lemma foldl_pointwise {A B} (f g : A -> B -> A) (l : list B) (a : A) :
  (forall a b, f a b = g a b) -> foldl f a l = foldl g a l.
Proof.
  intros Hfg. revert a. induction l as [|b l IH]; intros a; simpl; [done|].
  by rewrite Hfg, IH.
Qed.

Lemma compute_distance_matrix_alter rows :
  compute_distance_matrix rows =
    foldl (fun matrix i =>
             alter (fun row => foldl (row_step (cell (get_key_positions rows) i))
                                     row (seq 0 26)) i matrix)
          (replicate 26 (replicate 26 255)) (seq 0 26).
Proof.
  unfold compute_distance_matrix. apply foldl_pointwise.
  intros matrix k. apply cell_fold_alter.
Qed.

Lemma rows_fold_length (F : nat -> list Z -> list Z) idxs (matrix : list (list Z)) :
  length (foldl (fun matrix i => alter (F i) i matrix) matrix idxs)
  = length matrix.
Proof.
  revert matrix. induction idxs as [|i idxs IH]; intros matrix; cbn [foldl].
  - reflexivity.
  - rewrite IH. apply length_alter.
Qed.

Lemma compute_distance_matrix_row rows i :
  (i < 26)%nat ->
  compute_distance_matrix rows !! i =
    Some (foldl (row_step (cell (get_key_positions rows) i))
                (replicate 26 255) (seq 0 26)).
Proof.
  intros Hi. rewrite compute_distance_matrix_alter.
  rewrite (rows_fold_lookup
             (fun i row => foldl (row_step (cell (get_key_positions rows) i))
                                 row (seq 0 26))) by apply NoDup_seq.
  rewrite decide_True by (apply elem_of_seq; lia).
  rewrite lookup_replicate_2 by exact Hi. reflexivity.
Qed.

Lemma cell_distance_class positions i j :
  default 255 (cell positions i j) = distance_class positions i j.
Proof.
  unfold cell, distance_class.
  destruct (decide (i = j)); [done|].
  destruct (positions !! letter i) as [[ri ci]|]; [|done].
  destruct (positions !! letter j) as [[rj cj]|]; [|done].
  simpl. repeat case_decide; done.
Qed.

(** Every cell of the matrix holds the class of its pair of letters. *)
Lemma matrix_get_class rows i j :
  (i < 26)%nat -> (j < 26)%nat ->
  matrix_get (compute_distance_matrix rows) i j =
    Some (distance_class (get_key_positions rows) i j).
Proof.
  intros Hi Hj. unfold matrix_get.
  rewrite compute_distance_matrix_row by done. cbn [mbind option_bind].
  rewrite row_fold_lookup.
  - rewrite decide_True by (apply elem_of_seq; lia).
    rewrite lookup_replicate_2 by exact Hj. cbn [default].
    rewrite cell_distance_class. reflexivity.
  - apply NoDup_seq.
  - rewrite length_replicate. exact Hj.
Qed.

Lemma compute_distance_matrix_length rows :
  length (compute_distance_matrix rows) = 26%nat.
Proof.
  rewrite compute_distance_matrix_alter, rows_fold_length.
  apply length_replicate.
Qed.

Lemma compute_distance_matrix_row_length rows row :
  row ∈ compute_distance_matrix rows -> length row = 26%nat.
Proof.
  intros [i Hi]%list_elem_of_lookup.
  pose proof (lookup_lt_Some _ _ _ Hi) as Hlt.
  rewrite compute_distance_matrix_length in Hlt.
  rewrite (compute_distance_matrix_row rows i Hlt) in Hi.
  apply (inj Some) in Hi. rewrite <- Hi, row_fold_length.
  apply length_replicate.
Qed.

Lemma distance_class_values positions i j :
  distance_class positions i j ∈ [0; 1; 2; 255].
Proof.
  unfold distance_class.
  destruct (decide (i = j)); [set_solver|].
  destruct (positions !! letter i) as [[ri ci]|]; [|set_solver].
  destruct (positions !! letter j) as [[rj cj]|]; [|set_solver].
  simpl. repeat case_decide; set_solver.
Qed.

Lemma distance_class_sym positions i j :
  distance_class positions i j = distance_class positions j i.
Proof.
  unfold distance_class.
  destruct (decide (i = j)) as [->|Hne].
  - by rewrite decide_True.
  - rewrite (decide_False (P := j = i)) by congruence.
    destruct (positions !! letter i) as [[ri ci]|],
             (positions !! letter j) as [[rj cj]|]; try done.
    simpl.
    replace (Z.abs (rj - ri)) with (Z.abs (ri - rj)) by lia.
    replace (Z.abs (cj - ci)) with (Z.abs (ci - cj)) by lia.
    done.
Qed.

(** ** The loops of [get_key_positions] *)

Lemma elem_of_enumerate {A} (l : list A) i x :
  (i, x) ∈ enumerate l <-> l !! i = Some x.
Proof.
  unfold enumerate. rewrite list_elem_of_lookup. split.
  - intros [k Hk]. apply lookup_zip_with_Some in Hk as (i' & x' & Heq & Hi & Hx).
    injection Heq as -> ->. apply lookup_seq in Hi as [-> _]. exact Hx.
  - intros Hx. exists i. apply lookup_zip_with_Some. exists i, x.
    split; [reflexivity|]. split; [|exact Hx].
    apply lookup_seq. split; [reflexivity|]. by eapply lookup_lt_Some.
Qed.

Lemma enumerate_snd {A} (l : list A) : (enumerate l).*2 = l.
Proof. unfold enumerate. apply snd_zip. by rewrite length_seq. Qed.

Lemma get_key_positions_entries rows :
  get_key_positions rows = foldl insert_entry ∅ (key_coords rows).
Proof.
  unfold get_key_positions, key_coords.
  generalize (∅ : gmap string (Z * Z)) as m.
  induction (enumerate rows) as [|[r row] l IH]; intros m; [reflexivity|].
  rewrite bind_cons, foldl_app, <- IH. cbn [foldl]. f_equal.
  rewrite foldl_fmap. apply foldl_pointwise. by intros a [c key].
Qed.

Lemma key_coords_keys rows : (key_coords rows).*1 = concat rows.
Proof.
  unfold key_coords. rewrite <- (enumerate_snd rows) at 2.
  induction (enumerate rows) as [|[r row] l IH]; [reflexivity|].
  rewrite bind_cons, fmap_app, fmap_cons, IH. cbn [concat snd]. f_equal.
  rewrite <- (enumerate_snd row) at 2. rewrite <- list_fmap_compose.
  apply list_fmap_ext. by intros _ [c key] _.
Qed.

Lemma elem_of_key_coords rows r row c key :
  rows !! r = Some row -> row !! c = Some key ->
  (key, coords r c) ∈ key_coords rows.
Proof.
  intros Hrow Hkey. unfold key_coords. apply list_elem_of_bind.
  exists (r, row). split; [|by apply elem_of_enumerate].
  apply list_elem_of_fmap. exists (c, key). split; [reflexivity|].
  by apply elem_of_enumerate.
Qed.

Lemma foldl_insert_notin (l : list (string * (Z * Z))) m k :
  k ∉ l.*1 -> foldl insert_entry m l !! k = m !! k.
Proof.
  revert m. induction l as [|[k' v'] l IH]; intros m Hk; [reflexivity|].
  cbn [foldl]. rewrite fmap_cons, not_elem_of_cons in Hk. destruct Hk as [Hne Hk].
  rewrite IH by exact Hk. unfold insert_entry. by apply lookup_insert_ne.
Qed.

Lemma foldl_insert_in (l : list (string * (Z * Z))) m k :
  k ∈ l.*1 -> is_Some (foldl insert_entry m l !! k).
Proof.
  revert m. induction l as [|[k' v'] l IH]; intros m Hk.
  - by apply elem_of_nil in Hk.
  - cbn [foldl]. destruct (decide (k ∈ l.*1)) as [Hin|Hnotin].
    + by apply IH.
    + rewrite foldl_insert_notin by exact Hnotin.
      rewrite fmap_cons, elem_of_cons in Hk. destruct Hk as [->|Hk]; [|done].
      unfold insert_entry. rewrite lookup_insert_eq. by eexists.
Qed.

Lemma foldl_insert_NoDup (l : list (string * (Z * Z))) m k v :
  NoDup l.*1 -> (k, v) ∈ l -> foldl insert_entry m l !! k = Some v.
Proof.
  revert m. induction l as [|[k' v'] l IH]; intros m Hnd Hin.
  - by apply elem_of_nil in Hin.
  - cbn [foldl]. rewrite fmap_cons in Hnd. apply NoDup_cons in Hnd as [Hk' Hnd].
    apply elem_of_cons in Hin as [Heq|Hin].
    + injection Heq as -> ->. rewrite foldl_insert_notin by exact Hk'.
      unfold insert_entry. apply lookup_insert_eq.
    + by apply IH.
Qed.

Lemma get_key_positions_lookup rows r row c key :
  distinct_keys rows -> rows !! r = Some row -> row !! c = Some key ->
  get_key_positions rows !! key = Some (coords r c).
Proof.
  intros Hnd Hrow Hkey. rewrite get_key_positions_entries.
  apply foldl_insert_NoDup.
  - by rewrite key_coords_keys.
  - by eapply elem_of_key_coords.
Qed.

Lemma get_key_positions_absent rows key :
  key ∉ concat rows -> get_key_positions rows !! key = None.
Proof.
  intros Hkey. rewrite get_key_positions_entries, foldl_insert_notin.
  - apply lookup_empty.
  - by rewrite key_coords_keys.
Qed.

Lemma get_key_positions_present rows key :
  key ∈ concat rows -> is_Some (get_key_positions rows !! key).
Proof.
  intros Hkey. rewrite get_key_positions_entries. apply foldl_insert_in.
  by rewrite key_coords_keys.
Qed.

(** ** The position model and the distance matrix *)

Lemma row_offset_beyond r : (2 < r)%nat -> row_offset r = Z.of_nat r * 2.
Proof.
  intros Hr. unfold row_offset. rewrite decide_False; [reflexivity|].
  unfold row_offsets. cbn [length]. lia.
Qed.

(** C2: with the keys of a layout distinct, the key at row index [r] and
    column index [c] is mapped to the coordinate (2r, 2c + stagger r);
    the stagger is 0, 1, 3 for the rows 0, 1, 2 and 2r for every row index
    above 2; a key that is in no row has no entry in the mapping. *)
Theorem C2_key_positions (rows : list (list string)) :
  (distinct_keys rows ->
   forall r row c key,
     rows !! r = Some row -> row !! c = Some key ->
     get_key_positions rows !! key
       = Some (Z.of_nat r * 2, Z.of_nat c * 2 + row_offset r)) /\
  (row_offset 0 = 0 /\ row_offset 1 = 1 /\ row_offset 2 = 3 /\
   forall r, (2 < r)%nat -> row_offset r = Z.of_nat r * 2) /\
  (forall key, key ∉ concat rows -> get_key_positions rows !! key = None).
Proof.
  split; [|split].
  - intros Hnd r row c key Hrow Hkey.
    apply (get_key_positions_lookup rows r row c key Hnd Hrow Hkey).
  - repeat split; try reflexivity. apply row_offset_beyond.
  - apply get_key_positions_absent.
Qed.

(** C1: the entry of the matrix for the letters [i] and [j] is 0 when
    [i = j]; 255 when one of the two letters has no position; otherwise 1,
    2 or 255 as the Chebyshev distance of the two coordinates is at most 2,
    at most 4, or larger. *)
Theorem C1_matrix_entry_rule (rows : list (list string)) (i j : nat) :
  (i < 26)%nat -> (j < 26)%nat ->
  let positions := get_key_positions rows in
  let entry := matrix_get (compute_distance_matrix rows) i j in
  (i = j -> entry = Some 0) /\
  (i <> j ->
   positions !! letter i = None \/ positions !! letter j = None ->
   entry = Some 255) /\
  (i <> j ->
   forall row_i col_i row_j col_j,
     positions !! letter i = Some (row_i, col_i) ->
     positions !! letter j = Some (row_j, col_j) ->
     let row_diff := Z.abs (row_i - row_j) in
     let col_diff := Z.abs (col_i - col_j) in
     let cheb := Z.max row_diff col_diff in
     (cheb <= 2 -> entry = Some 1) /\
     (2 < cheb <= 4 -> entry = Some 2) /\
     (4 < cheb -> entry = Some 255)).
Proof.
  intros Hi Hj positions entry. subst entry positions.
  rewrite (matrix_get_class rows i j Hi Hj). unfold distance_class.
  split; [|split].
  - intros Heq. by rewrite decide_True.
  - intros Hne Hnone. rewrite decide_False by exact Hne.
    destruct Hnone as [-> | Hnone]; [reflexivity|].
    rewrite Hnone. by destruct (get_key_positions rows !! letter i) as [[? ?]|].
  - intros Hne ri ci rj cj Hpi Hpj. rewrite decide_False by exact Hne.
    rewrite Hpi, Hpj. cbn zeta.
    repeat split; intros Hc; repeat case_decide; (reflexivity || lia).
Qed.

(** C4: the matrix is symmetric. *)
Theorem C4_matrix_symmetric (rows : list (list string)) (i j : nat) :
  (i < 26)%nat -> (j < 26)%nat ->
  matrix_get (compute_distance_matrix rows) i j
  = matrix_get (compute_distance_matrix rows) j i.
Proof.
  intros Hi Hj.
  rewrite (matrix_get_class rows i j Hi Hj), (matrix_get_class rows j i Hj Hi).
  f_equal. apply distance_class_sym.
Qed.

(** C5: every diagonal entry is 0, also for a letter that is in no row of
    the layout; all the other entries in the row and in the column of such
    a letter are 255. *)
Theorem C5_diagonal_zero (rows : list (list string)) (i : nat) :
  (i < 26)%nat ->
  matrix_get (compute_distance_matrix rows) i i = Some 0 /\
  (letter i ∉ concat rows ->
   forall j, (j < 26)%nat -> j <> i ->
     matrix_get (compute_distance_matrix rows) i j = Some 255 /\
     matrix_get (compute_distance_matrix rows) j i = Some 255).
Proof.
  intros Hi. split.
  - rewrite (matrix_get_class rows i i Hi Hi). unfold distance_class.
    by rewrite decide_True.
  - intros Habsent j Hj Hne.
    apply get_key_positions_absent in Habsent.
    rewrite (matrix_get_class rows i j Hi Hj), (matrix_get_class rows j i Hj Hi).
    unfold distance_class.
    rewrite (decide_False (P := i = j)) by congruence.
    rewrite (decide_False (P := j = i)) by congruence.
    rewrite Habsent. split; [reflexivity|].
    by destruct (get_key_positions rows !! letter j) as [[? ?]|].
Qed.

Lemma matrix_get_lookup (matrix : list (list Z)) i j row v :
  matrix !! i = Some row -> row !! j = Some v -> matrix_get matrix i j = Some v.
Proof. intros Hrow Hv. unfold matrix_get. rewrite Hrow. exact Hv. Qed.

(** An entry read from the computed matrix is one of the four classes. *)
Lemma compute_distance_matrix_entry rows i row j v :
  compute_distance_matrix rows !! i = Some row -> row !! j = Some v ->
  v = 0 \/ v = 1 \/ v = 2 \/ v = 255.
Proof.
  generalize (compute_distance_matrix_length rows).
  generalize (compute_distance_matrix_row_length rows).
  generalize (matrix_get_class rows).
  generalize (distance_class_values (get_key_positions rows)).
  generalize (distance_class (get_key_positions rows)) as class.
  generalize (compute_distance_matrix rows) as matrix.
  intros matrix class Hval Hget Hrows Hlen Hrow Hv.
  pose proof (Hrows row (list_elem_of_lookup_2 _ _ _ Hrow)) as Hrlen.
  pose proof (lookup_lt_Some _ _ _ Hrow) as Hi. rewrite Hlen in Hi.
  pose proof (lookup_lt_Some _ _ _ Hv) as Hj. rewrite Hrlen in Hj.
  pose proof (matrix_get_lookup matrix i j row v Hrow Hv) as Hcell.
  rewrite (Hget i j Hi Hj) in Hcell. apply (inj Some) in Hcell.
  specialize (Hval i j). rewrite Hcell in Hval.
  rewrite !elem_of_cons in Hval. rewrite elem_of_nil in Hval. tauto.
Qed.

(** C6: the matrix has 26 rows of 26 entries, each of them 0, 1, 2 or
    255. *)
Theorem C6_matrix_values (rows : list (list string)) :
  length (compute_distance_matrix rows) = 26%nat /\
  Forall (fun row =>
            length row = 26%nat /\
            Forall (fun v => v = 0 \/ v = 1 \/ v = 2 \/ v = 255) row)
         (compute_distance_matrix rows).
Proof.
  split; [apply compute_distance_matrix_length|].
  apply Forall_lookup. intros i row Hrow. split.
  - apply (compute_distance_matrix_row_length rows).
    exact (list_elem_of_lookup_2 _ _ _ Hrow).
  - apply Forall_lookup. intros j v Hv.
    exact (compute_distance_matrix_entry rows i row j v Hrow Hv).
Qed.

(** Without the invariant the dict keeps the last assignment of a key. *)
Example get_key_positions_repeated_key :
  get_key_positions [chars "ab"; chars "a"] !! "a" = Some (2, 1).
Proof. reflexivity. Qed.

Lemma C2_key_positions_witness :
  get_key_positions QWERTY_ROWS !! "s" = Some (2, 3) /\
  row_offset 5 = 10 /\
  get_key_positions [chars "ab"] !! "c" = None.
Proof.
  split; [|split].
  - destruct (C2_key_positions QWERTY_ROWS) as (Hpos & _ & _).
    assert (Hd : distinct_keys QWERTY_ROWS).
    { unfold distinct_keys. refine (bool_decide_unpack _ _); vm_compute; exact I. }
    apply (Hpos Hd 1%nat (chars "asdfghjkl") 1%nat "s"); reflexivity.
  - destruct (C2_key_positions []) as (_ & (_ & _ & _ & Hoff) & _).
    apply (Hoff 5%nat). lia.
  - destruct (C2_key_positions [chars "ab"]) as (_ & _ & Habs).
    apply (Habs "c"). refine (bool_decide_unpack _ _); vm_compute; exact I.
Defined.

Lemma C1_matrix_entry_rule_witness :
  matrix_get (compute_distance_matrix QWERTY_ROWS) 16 22 = Some 1 /\
  matrix_get (compute_distance_matrix QWERTY_ROWS) 16 15 = Some 255 /\
  matrix_get (compute_distance_matrix QWERTY_ROWS) 0 16 = Some 1.
Proof.
  split; [|split].
  - destruct (C1_matrix_entry_rule QWERTY_ROWS 16 22) as (_ & _ & H); [lia..|].
    apply (H ltac:(lia) 0 0 0 2); [reflexivity..|cbn; lia].
  - destruct (C1_matrix_entry_rule QWERTY_ROWS 16 15) as (_ & _ & H); [lia..|].
    apply (H ltac:(lia) 0 0 0 18); [reflexivity..|cbn; lia].
  - destruct (C1_matrix_entry_rule QWERTY_ROWS 0 16) as (_ & _ & H); [lia..|].
    apply (H ltac:(lia) 2 1 0 0); [reflexivity..|cbn; lia].
Defined.

Lemma C4_matrix_symmetric_witness :
  matrix_get (compute_distance_matrix QWERTY_ROWS) 0 16
  = matrix_get (compute_distance_matrix QWERTY_ROWS) 16 0.
Proof. apply (C4_matrix_symmetric QWERTY_ROWS 0 16); lia. Defined.

Lemma C5_diagonal_zero_witness :
  matrix_get (compute_distance_matrix [chars "ab"]) 2 2 = Some 0 /\
  matrix_get (compute_distance_matrix [chars "ab"]) 2 0 = Some 255 /\
  matrix_get (compute_distance_matrix [chars "ab"]) 0 2 = Some 255.
Proof.
  destruct (C5_diagonal_zero [chars "ab"] 2) as [Hdiag Hoff]; [lia|].
  split; [exact Hdiag|].
  assert (Habs : letter 2 ∉ concat [chars "ab"]).
  { refine (bool_decide_unpack _ _); vm_compute; exact I. }
  apply (Hoff Habs 0%nat); lia.
Defined.

(** ** The built-in layouts *)

Lemma distance_class_far positions i j :
  distance_class positions i j = 255 ->
  is_Some (positions !! letter i) -> is_Some (positions !! letter j) ->
  exists row_i col_i row_j col_j,
    positions !! letter i = Some (row_i, col_i) /\
    positions !! letter j = Some (row_j, col_j) /\
    4 < Z.max (Z.abs (row_i - row_j)) (Z.abs (col_i - col_j)).
Proof.
  unfold distance_class. intros Hclass [[ri ci] Hi] [[rj cj] Hj].
  rewrite Hi, Hj in Hclass. exists ri, ci, rj, cj.
  split; [exact Hi|]. split; [exact Hj|].
  cbn zeta in Hclass. repeat case_decide; (discriminate || lia).
Qed.

Lemma alphabet_permutation (keys : list string) :
  NoDup keys -> Forall (fun key => key ∈ letter <$> seq 0 26) keys ->
  (26 <= length keys)%nat ->
  keys ≡ₚ letter <$> seq 0 26.
Proof.
  intros Hnd Hsub Hlen. apply submseteq_length_Permutation.
  - apply NoDup_submseteq; [exact Hnd|]. by apply Forall_forall.
  - rewrite length_fmap, length_seq. exact Hlen.
Qed.

Lemma builtin_layout_keys name rows :
  (name, rows) ∈ LAYOUTS -> concat rows ≡ₚ letter <$> seq 0 26.
Proof.
  unfold LAYOUTS. rewrite !elem_of_cons, elem_of_nil.
  intros [H|[H|[H|[H|[H|[]]]]]]; injection H as -> ->;
    (apply alphabet_permutation;
     [ refine (bool_decide_unpack _ _); vm_compute; exact I
     | refine (bool_decide_unpack _ _); vm_compute; exact I
     | vm_compute; lia ]).
Qed.

(** C10: each of the five built-in layouts holds every letter a..z once
    and only once, so every letter has a position, and an entry 255 of its
    matrix comes from a Chebyshev distance above 4. *)
Theorem C10_builtin_layouts_total (name : string) (rows : list (list string)) :
  (name, rows) ∈ LAYOUTS ->
  LAYOUTS.*1 = ["qwerty"; "azerty"; "qwertz"; "dvorak"; "colemak"] /\
  concat rows ≡ₚ letter <$> seq 0 26 /\
  (forall i, (i < 26)%nat -> is_Some (get_key_positions rows !! letter i)) /\
  (forall i j, (i < 26)%nat -> (j < 26)%nat ->
     matrix_get (compute_distance_matrix rows) i j = Some 255 ->
     exists row_i col_i row_j col_j,
       get_key_positions rows !! letter i = Some (row_i, col_i) /\
       get_key_positions rows !! letter j = Some (row_j, col_j) /\
       4 < Z.max (Z.abs (row_i - row_j)) (Z.abs (col_i - col_j))).
Proof.
  intros Hin. pose proof (builtin_layout_keys name rows Hin) as Hperm.
  assert (Htotal : forall i, (i < 26)%nat ->
            is_Some (get_key_positions rows !! letter i)).
  { intros i Hi. apply get_key_positions_present. rewrite Hperm.
    apply list_elem_of_fmap_2. apply elem_of_seq. lia. }
  split; [reflexivity|]. split; [exact Hperm|]. split; [exact Htotal|].
  intros i j Hi Hj Hget. rewrite (matrix_get_class rows i j Hi Hj) in Hget.
  apply (inj Some) in Hget.
  apply distance_class_far; [exact Hget|by apply Htotal..].
Qed.

Lemma C10_builtin_layouts_total_witness :
  concat DVORAK_ROWS ≡ₚ letter <$> seq 0 26.
Proof.
  refine (proj1 (proj2 (C10_builtin_layouts_total "dvorak" DVORAK_ROWS _))).
  unfold LAYOUTS. rewrite !elem_of_cons. tauto.
Defined.

(** ** Bytes *)

Lemma byte_of_int_range (v : Z) :
  0 <= v <= 255 -> exists b, byte_of_int v = Some b /\ int_of_byte b = v.
Proof.
  intros Hv. unfold byte_of_int, int_of_byte.
  rewrite decide_True by lia.
  destruct (Byte.of_N (Z.to_N v)) as [b|] eqn:E.
  - exists b. split; [reflexivity|].
    apply Byte.to_of_N in E. rewrite E. lia.
  - apply Byte.of_N_None_iff in E. lia.
Qed.

Lemma int_of_byte_range (b : byte) : 0 <= int_of_byte b <= 255.
Proof.
  unfold int_of_byte. pose proof (Byte.to_N_bounded b). lia.
Qed.

Lemma byte_of_int_of_byte (b : byte) : byte_of_int (int_of_byte b) = Some b.
Proof.
  unfold byte_of_int, int_of_byte. rewrite decide_True by lia.
  rewrite N2Z.id. apply Byte.of_to_N.
Qed.

Lemma bytes_range (row : list Z) :
  Forall (fun v => 0 <= v <= 255) row ->
  exists chunk, bytes row = Ok chunk /\ int_of_byte <$> chunk = row.
Proof.
  intros Hrow.
  assert (exists chunk, Forall2 (fun v b => byte_of_int v = Some b) row chunk /\
                        int_of_byte <$> chunk = row) as (chunk & Hall & Hback).
  { induction Hrow as [|v row Hv _ (chunk & Hall & Hback)].
    - exists []. split; [constructor|reflexivity].
    - destruct (byte_of_int_range v Hv) as (b & Hb & Hvb).
      exists (b :: chunk). split; [by constructor|].
      rewrite fmap_cons. by rewrite Hvb, Hback. }
  exists chunk. split; [|exact Hback].
  apply mapM_Some in Hall. unfold bytes. by rewrite Hall.
Qed.

Lemma bytes_rows (matrix : list (list Z)) :
  Forall (Forall (fun v => 0 <= v <= 255)) matrix ->
  exists chunks,
    Forall2 (fun row chunk => bytes row = Ok chunk) matrix chunks /\
    (fun chunk : list byte => int_of_byte <$> chunk) <$> chunks = matrix.
Proof.
  induction 1 as [|row matrix Hrow _ (chunks & Hall & Hback)].
  - exists []. split; [constructor|reflexivity].
  - destruct (bytes_range row Hrow) as (chunk & Hchunk & Hcb).
    exists (chunk :: chunks). split; [by constructor|].
    rewrite fmap_cons. by rewrite Hcb, Hback.
Qed.

Lemma concat_length_uniform {A} (n : nat) (chunks : list (list A)) :
  Forall (fun chunk => length chunk = n) chunks ->
  length (concat chunks) = (length chunks * n)%nat.
Proof.
  induction 1 as [|chunk chunks Hchunk _ IH]; [reflexivity|].
  cbn [concat length]. rewrite length_app, IH, Hchunk. lia.
Qed.

(** The byte rows of a 26x26 matrix have the shape of the matrix. *)
Lemma chunks_shape (matrix : list (list Z)) (chunks : list (list byte)) :
  (fun chunk : list byte => int_of_byte <$> chunk) <$> chunks = matrix ->
  length matrix = 26%nat -> Forall (fun row => length row = 26%nat) matrix ->
  length chunks = 26%nat /\ Forall (fun chunk => length chunk = 26%nat) chunks.
Proof.
  intros <- Hlen Hrows. rewrite length_fmap in Hlen. split; [exact Hlen|].
  rewrite Forall_fmap in Hrows. eapply Forall_impl; [exact Hrows|].
  intros chunk Hchunk. cbn in Hchunk. by rewrite length_fmap in Hchunk.
Qed.

Lemma compute_distance_matrix_bytes rows :
  Forall (Forall (fun v => 0 <= v <= 255)) (compute_distance_matrix rows).
Proof.
  apply Forall_lookup. intros i row Hrow.
  apply Forall_lookup. intros j v Hv.
  pose proof (compute_distance_matrix_entry rows i row j v Hrow Hv). lia.
Qed.

(** ** Running the script *)

Lemma io_bind_run {A B} (m : IO A) (k : A -> IO B) (w : world) :
  (m ≫= k) w = match m w with
               | (Ok a, w') => k a w'
               | (Raise e, w') => (Raise e, w')
               end.
Proof. reflexivity. Qed.

Lemma syscall_run fs out fa :
  syscall (World fs out fa) =
    match fa with
    | None => (Ok tt, World fs out None)
    | Some O => (Raise OSError, World fs out None)
    | Some (S n) => (Ok tt, World fs out (Some n))
    end.
Proof. by destruct fa as [[|n]|]. Qed.

Lemma f_write_run (f : string) (data pending : list byte) fs out fa bs :
  f_write f data (MkWorld fs out fa (<[f := pending]> bs)) =
    (Ok tt, MkWorld fs out fa (<[f := (pending ++ data)%list]> bs)).
Proof.
  unfold f_write. cbn [buffers]. rewrite lookup_insert_eq.
  unfold set_buffers. cbn [files stdout fail_at buffers].
  by rewrite insert_insert_eq.
Qed.

Lemma write_rows_run (f : string) matrix chunks pending fs out fa bs :
  Forall2 (fun row chunk => bytes row = Ok chunk) matrix chunks ->
  for_each matrix (fun row => data ← lift (bytes row); f_write f data)
           (MkWorld fs out fa (<[f := pending]> bs)) =
    (Ok tt, MkWorld fs out fa (<[f := (pending ++ concat chunks)%list]> bs)).
Proof.
  intros Hall. revert pending.
  induction Hall as [|row chunk matrix chunks Hrow _ IH]; intros pending.
  - cbn [for_each concat]. by rewrite app_nil_r.
  - cbn [for_each]. rewrite io_bind_run, io_bind_run. unfold lift at 1.
    rewrite Hrow, f_write_run, IH. cbn [concat]. by rewrite app_assoc.
Qed.

(** The body of the [with] block only fills the buffer of the file
    object. *)
Lemma write_matrix_run (f : string) matrix chunks fs out fa bs :
  Forall2 (fun row chunk => bytes row = Ok chunk) matrix chunks ->
  write_matrix f matrix (MkWorld fs out fa (<[f := []]> bs)) =
    (Ok tt, MkWorld fs out fa (<[f := concat (file_pieces chunks)]> bs)).
Proof.
  intros Hall. unfold write_matrix, file_pieces.
  rewrite io_bind_run, f_write_run. cbn [app].
  rewrite io_bind_run, io_bind_run. unfold lift at 1.
  change (struct_pack_B VERSION) with (Ok (A := list byte) ["001"%byte]).
  cbn iota beta. rewrite f_write_run.
  rewrite (write_rows_run f matrix chunks _ fs out fa bs Hall). reflexivity.
Qed.

Lemma transfer_run (path : string) (data content : list byte) fs out fa bs :
  transfer path data (MkWorld (<[path := content]> fs) out fa bs) =
    match fa with
    | None =>
        (Ok tt, MkWorld (<[path := (content ++ data)%list]> fs) out None bs)
    | Some n =>
        if decide (n < length data)%nat
        then (Raise OSError,
              MkWorld (<[path := (content ++ take n data)%list]> fs) out None bs)
        else (Ok tt,
              MkWorld (<[path := (content ++ data)%list]> fs) out
                      (Some (n - length data)%nat) bs)
    end.
Proof.
  revert content fa. induction data as [|b data IH]; intros content fa.
  - cbn [transfer length take]. rewrite app_nil_r.
    destruct fa as [n|]; [|reflexivity].
    rewrite decide_False by lia. by rewrite Nat.sub_0_r.
  - cbn [transfer]. rewrite io_bind_run. unfold syscall at 1.
    cbn [fail_at files stdout buffers].
    destruct fa as [[|n]|].
    + rewrite decide_True by (cbn [length]; lia). cbn [take].
      by rewrite app_nil_r.
    + rewrite io_bind_run. unfold set_files at 1.
      cbn [fail_at files stdout buffers]. rewrite alter_insert_eq, IH.
      cbn [length take].
      destruct (decide (n < length data)%nat).
      * rewrite decide_True by lia. by rewrite <- app_assoc.
      * rewrite decide_False by lia. by rewrite <- app_assoc.
    + rewrite io_bind_run. unfold set_files at 1.
      cbn [fail_at files stdout buffers]. rewrite alter_insert_eq, IH.
      by rewrite <- app_assoc.
Qed.

Lemma open_wb_run (path : string) fs out fa :
  open_wb path (World fs out fa) =
    match fa with
    | None => (Ok path, MkWorld (<[path := []]> fs) out None (<[path := []]> ∅))
    | Some O => (Raise OSError, World fs out None)
    | Some (S n) =>
        (Ok path, MkWorld (<[path := []]> fs) out (Some n) (<[path := []]> ∅))
    end.
Proof. by destruct fa as [[|n]|]. Qed.

Lemma f_close_run (f : string) (pending : list byte) fs out fa :
  f_close f (MkWorld (<[f := []]> fs) out fa (<[f := pending]> ∅)) =
    match fa with
    | None => (Ok tt, World (<[f := pending]> fs) out None)
    | Some n =>
        if decide (n < length pending)%nat
        then (Raise OSError, World (<[f := take n pending]> fs) out None)
        else if decide (n = length pending)
        then (Raise OSError, World (<[f := pending]> fs) out None)
        else (Ok tt, World (<[f := pending]> fs) out
                           (Some (n - length pending - 1)%nat))
    end.
Proof.
  unfold f_close. cbn [buffers]. rewrite lookup_insert_eq.
  rewrite io_bind_run. unfold set_buffers at 1.
  cbn [fail_at files stdout buffers]. rewrite delete_insert_eq, delete_empty.
  rewrite io_bind_run, transfer_run. cbn [app].
  destruct fa as [n|]; [|reflexivity].
  destruct (decide (n < length pending)%nat); [reflexivity|].
  fold (World (<[f := pending]> fs) out (Some (n - length pending)%nat)).
  rewrite syscall_run.
  destruct (n - length pending)%nat as [|k] eqn:Hk.
  - by rewrite decide_True by lia.
  - rewrite decide_False by lia.
    by replace (S k - 1)%nat with k by lia.
Qed.

Lemma with_open_wb_run (path : string) matrix chunks fs out fa :
  Forall2 (fun row chunk => bytes row = Ok chunk) matrix chunks ->
  let image := concat (file_pieces chunks) in
  with_open_wb path (fun f => write_matrix f matrix) (World fs out fa) =
    match fa with
    | None => (Ok tt, World (<[path := image]> fs) out None)
    | Some O => (Raise OSError, World fs out None)
    | Some (S n) =>
        if decide (n < length image)%nat
        then (Raise OSError, World (<[path := take n image]> fs) out None)
        else if decide (n = length image)
        then (Raise OSError, World (<[path := image]> fs) out None)
        else (Ok tt, World (<[path := image]> fs) out
                           (Some (n - length image - 1)%nat))
    end.
Proof.
  intros Hall image. subst image.
  unfold with_open_wb. rewrite io_bind_run, open_wb_run.
  destruct fa as [[|n]|]; [reflexivity| |].
  - unfold finally.
    rewrite (write_matrix_run path matrix chunks _ out _ ∅ Hall), f_close_run.
    by repeat case_decide.
  - unfold finally.
    by rewrite (write_matrix_run path matrix chunks _ out _ ∅ Hall), f_close_run.
Qed.

Lemma getsize_run (path : string) content fs out fa :
  getsize path (World (<[path := content]> fs) out fa) =
    match fa with
    | None => (Ok (length content), World (<[path := content]> fs) out None)
    | Some O => (Raise OSError, World (<[path := content]> fs) out None)
    | Some (S n) =>
        (Ok (length content), World (<[path := content]> fs) out (Some n))
    end.
Proof.
  unfold getsize. rewrite io_bind_run, syscall_run.
  destruct fa as [[|n]|]; [reflexivity| |];
    rewrite io_bind_run; unfold get_files, World; cbn [files];
    rewrite lookup_insert_eq; reflexivity.
Qed.

(** What [write_layout_file] does, whatever step is refused: the open, the
    transfer of a byte when the file is closed, the close of the
    descriptor or the size query. *)
Lemma write_layout_file_run (path : string) rows chunks fs out fa :
  Forall2 (fun row chunk => bytes row = Ok chunk)
          (compute_distance_matrix rows) chunks ->
  let image := concat (file_pieces chunks) in
  write_layout_file path rows (World fs out fa) =
    match fa with
    | None =>
        (Ok tt, World (<[path := image]> fs)
                      (out ++ [written_line (length image) path]) None)
    | Some O => (Raise OSError, World fs out None)
    | Some (S n) =>
        if decide (n < length image)%nat
        then (Raise OSError, World (<[path := take n image]> fs) out None)
        else if decide (n < length image + 2)%nat
        then (Raise OSError, World (<[path := image]> fs) out None)
        else (Ok tt, World (<[path := image]> fs)
                           (out ++ [written_line (length image) path])
                           (Some (n - length image - 2)%nat))
    end.
Proof.
  intros Hall image. subst image. unfold write_layout_file. cbn zeta.
  rewrite io_bind_run, (with_open_wb_run path _ chunks fs out fa Hall).
  cbn zeta.
  destruct fa as [[|n]|]; [reflexivity| |].
  - destruct (decide (n < length (concat (file_pieces chunks)))%nat);
      [reflexivity|].
    destruct (decide (n = length (concat (file_pieces chunks)))) as [Heq|Hne].
    { by rewrite decide_True by lia. }
    rewrite io_bind_run, getsize_run.
    destruct (n - length (concat (file_pieces chunks)) - 1)%nat as [|k] eqn:Hk.
    + by rewrite decide_True by lia.
    + rewrite decide_False by lia.
      by replace (n - length (concat (file_pieces chunks)) - 2)%nat with k by lia.
  - rewrite io_bind_run, getsize_run. reflexivity.
Qed.

Lemma file_pieces_concat (chunks : list (list byte)) :
  concat (file_pieces chunks) = (MAGIC ++ ["001"%byte] ++ concat chunks)%list.
Proof. reflexivity. Qed.

Lemma file_image_length (chunks : list (list byte)) :
  length chunks = 26%nat -> Forall (fun chunk => length chunk = 26%nat) chunks ->
  length (MAGIC ++ ["001"%byte] ++ concat chunks)%list = 681%nat.
Proof.
  intros Hlen Hall. rewrite !length_app, (concat_length_uniform 26 chunks Hall).
  rewrite Hlen. reflexivity.
Qed.

(** The chunks [write_layout_file] writes for the rows of the matrix of a
    layout. *)
Lemma layout_chunks rows :
  exists chunks : list (list byte),
    Forall2 (fun row chunk => bytes row = Ok chunk)
            (compute_distance_matrix rows) chunks /\
    (fun chunk : list byte => int_of_byte <$> chunk) <$> chunks
      = compute_distance_matrix rows /\
    length chunks = 26%nat /\
    Forall (fun chunk => length chunk = 26%nat) chunks.
Proof.
  destruct (bytes_rows _ (compute_distance_matrix_bytes rows))
    as (chunks & Hall & Hback).
  exists chunks. split; [exact Hall|]. split; [exact Hback|].
  apply (chunks_shape _ _ Hback).
  - apply compute_distance_matrix_length.
  - apply Forall_forall. apply compute_distance_matrix_row_length.
Qed.

(** C3: without an I/O failure [write_layout_file] leaves at the output
    path the four magic bytes K, Y, B, D, the version byte 1 and then the
    26 rows of 26 matrix bytes in row-major order: 681 bytes, the first
    five of them K, Y, B, D, 1. *)
Theorem C3_file_layout (rows : list (list string)) (output_path : string)
    (fs : gmap string (list byte)) (out : list string) :
  exists payload : list (list byte),
    length payload = 26%nat /\
    Forall (fun chunk => length chunk = 26%nat) payload /\
    (fun chunk : list byte => int_of_byte <$> chunk) <$> payload
      = compute_distance_matrix rows /\
    let data := (MAGIC ++ ["001"%byte] ++ concat payload)%list in
    write_layout_file output_path rows (World fs out None)
      = (Ok tt,
         World (<[output_path := data]> fs)
               (out ++ ["  Written 681 bytes to " +:+ output_path]) None) /\
    length data = FILE_SIZE /\ FILE_SIZE = 681%nat /\
    take 5 data = ["K"%byte; "Y"%byte; "B"%byte; "D"%byte; "001"%byte].
Proof.
  destruct (layout_chunks rows) as (chunks & Hall & Hback & Hlen & Hrows).
  exists chunks. split; [exact Hlen|]. split; [exact Hrows|].
  split; [exact Hback|]. cbn zeta.
  pose proof (file_image_length chunks Hlen Hrows) as Hsize.
  split; [|split; [exact Hsize|split; reflexivity]].
  rewrite (write_layout_file_run output_path rows chunks fs out None Hall).
  cbn zeta. rewrite file_pieces_concat, Hsize. reflexivity.
Qed.

(** ** Failures while writing *)

(** C9 (as the code has it): writing a layout file is not atomic. The
    destination is created or truncated in place and receives the bytes
    when the file is closed; there is no temporary file and no rename. A
    run succeeds and leaves the 681 bytes, or fails with [OSError]: with
    the files as they were when the destination cannot be created, and
    otherwise with a prefix of the 681 bytes at the destination path. A
    partial file of every length below 681 can be left. *)
Theorem C9_write_in_place (rows : list (list string)) (output_path : string)
    (fs : gmap string (list byte)) (out : list string) :
  exists image : list byte,
    length image = 681%nat /\
    write_layout_file output_path rows (World fs out None)
    = (Ok tt, World (<[output_path := image]> fs)
                    (out ++ ["  Written 681 bytes to " +:+ output_path]) None) /\
    write_layout_file output_path rows (World fs out (Some 0%nat))
    = (Raise OSError, World fs out None) /\
    (forall fa : option nat,
       (exists fa',
          write_layout_file output_path rows (World fs out fa)
          = (Ok tt, World (<[output_path := image]> fs)
                          (out ++ ["  Written 681 bytes to " +:+ output_path])
                          fa')) \/
       write_layout_file output_path rows (World fs out fa)
       = (Raise OSError, World fs out None) \/
       (exists data,
          write_layout_file output_path rows (World fs out fa)
          = (Raise OSError, World (<[output_path := data]> fs) out None) /\
          data `prefix_of` image)) /\
    (forall k : nat, (k < 681)%nat ->
       exists fa : option nat,
         write_layout_file output_path rows (World fs out fa)
         = (Raise OSError,
            World (<[output_path := take k image]> fs) out None)).
Proof.
  destruct (layout_chunks rows) as (chunks & Hall & _ & Hlen & Hrows).
  pose proof (file_image_length chunks Hlen Hrows) as Hsize.
  rewrite <- file_pieces_concat in Hsize.
  pose proof (write_layout_file_run output_path rows chunks fs out) as Hrun.
  specialize (fun fa => Hrun fa Hall). cbn zeta in Hrun.
  rewrite Hsize in Hrun.
  change (written_line 681 output_path)
    with ("  Written 681 bytes to " +:+ output_path) in Hrun.
  revert Hsize Hrun. generalize (concat (file_pieces chunks)) as image.
  intros image Hsize Hrun.
  exists image. split; [exact Hsize|].
  split; [exact (Hrun None)|]. split; [exact (Hrun (Some 0%nat))|]. split.
  - intros [[|n]|].
    + right. left. exact (Hrun (Some 0%nat)).
    + specialize (Hrun (Some (S n))). cbn iota beta in Hrun.
      destruct (decide (n < 681)%nat).
      { right. right. exists (take n image). split; [exact Hrun|].
        apply prefix_take. }
      destruct (decide (n < 681 + 2)%nat).
      { right. right. exists image. split; [exact Hrun|reflexivity]. }
      left. eexists. exact Hrun.
    + left. eexists. exact (Hrun None).
  - intros k Hk. exists (Some (S k)).
    specialize (Hrun (Some (S k))). cbn iota beta in Hrun.
    by rewrite decide_True in Hrun by exact Hk.
Qed.

Lemma C9_write_in_place_witness :
  exists (image : list byte) (fa : option nat),
    length image = 681%nat /\
    write_layout_file "keyboard_qwerty.bin" QWERTY_ROWS (World ∅ [] fa)
    = (Raise OSError,
       World (<["keyboard_qwerty.bin" := take 100 image]> ∅) [] None).
Proof.
  destruct (C9_write_in_place QWERTY_ROWS "keyboard_qwerty.bin" ∅ [])
    as (image & Hsize & _ & _ & _ & Hpartial).
  destruct (Hpartial 100%nat ltac:(lia)) as [fa Hrun].
  exists image, fa. split; [exact Hsize|exact Hrun].
Defined.

(** C9 (as the spec states it) fails: the destination is created, the
    operating system takes no byte of the data, and an empty file is left
    at the destination path. *)
Lemma C9_partial_file_counterexample :
  let '(r, w) := write_layout_file "keyboard_qwerty.bin" QWERTY_ROWS
                                   (World ∅ [] (Some 1%nat)) in
  r = Raise OSError /\
  exists data, files w !! "keyboard_qwerty.bin" = Some data /\
               (length data < 681)%nat.
Proof.
  vm_compute. split; [reflexivity|]. exists []. split; [reflexivity|lia].
Qed.

(** ** Decoding *)

Lemma concat_chunks_split {A} (n : nat) (chunks : list (list A)) :
  Forall (fun chunk => length chunk = n) chunks ->
  (fun i => take n (drop (n * i) (concat chunks))) <$> seq 0 (length chunks)
  = chunks.
Proof.
  induction 1 as [|chunk chunks Hchunk _ IH]; [reflexivity|].
  cbn [length seq concat]. rewrite fmap_cons. f_equal.
  - rewrite Nat.mul_0_r. cbn [drop]. by apply take_app_length'.
  - rewrite <- fmap_S_seq, <- list_fmap_compose. rewrite <- IH at 2.
    apply list_fmap_ext. intros _ i _. cbn [compose].
    replace (n * S i)%nat with (n + n * i)%nat by lia.
    by rewrite drop_app_add'.
Qed.

Lemma int_of_byte_inj (b1 b2 : byte) : int_of_byte b1 = int_of_byte b2 -> b1 = b2.
Proof.
  intros Heq. apply (inj Some).
  by rewrite <- (byte_of_int_of_byte b1), <- (byte_of_int_of_byte b2), Heq.
Qed.

Lemma decode_image (chunks : list (list byte)) :
  length chunks = 26%nat -> Forall (fun chunk => length chunk = 26%nat) chunks ->
  decode (MAGIC ++ ["001"%byte] ++ concat chunks)
  = inr ((fun chunk : list byte => int_of_byte <$> chunk) <$> chunks).
Proof.
  intros Hlen Hall. unfold decode.
  rewrite (file_image_length chunks Hlen Hall).
  rewrite decide_False by (unfold FILE_SIZE; lia).
  rewrite decide_True by (split; reflexivity).
  f_equal. change (drop 5 (MAGIC ++ ["001"%byte] ++ concat chunks))
    with (concat chunks).
  pose proof (concat_chunks_split 26 chunks Hall) as Hsplit.
  rewrite Hlen in Hsplit.
  transitivity ((fun chunk : list byte => int_of_byte <$> chunk) <$>
                  ((fun i => take 26 (drop (26 * i) (concat chunks)))
                     <$> seq 0 26)).
  - by rewrite <- list_fmap_compose.
  - by rewrite Hsplit.
Qed.

Lemma decode_truncated (data : list byte) :
  (length data < FILE_SIZE)%nat -> decode data = inl TruncatedFile.
Proof. intros Hlen. unfold decode. by rewrite decide_True. Qed.

Lemma decode_malformed (data : list byte) :
  (FILE_SIZE <= length data)%nat ->
  take 4 data <> MAGIC \/ data !! 4%nat <> Some "001"%byte ->
  decode data = inl MalformedFile.
Proof.
  intros Hlen Hbad. unfold decode. rewrite decide_False by lia.
  rewrite decide_False; [reflexivity|].
  intros [Hmagic Hversion]. destruct Hbad as [Hbad|Hbad]; [done|].
  apply Hbad. destruct (data !! 4%nat) as [b|]; [|discriminate].
  cbn [fmap option_fmap option_map] in Hversion. apply (inj Some) in Hversion.
  f_equal. apply int_of_byte_inj. by rewrite Hversion.
Qed.

(** C7: the file written for a 26x26 matrix of byte values decodes to
    that matrix; at least 681 bytes with a wrong magic tag or a wrong
    version byte are rejected as [MalformedFile]; fewer than 681 bytes are
    rejected as [TruncatedFile]. *)
Theorem C7_decode_roundtrip :
  (forall (matrix : list (list Z)) (path : string) fs out,
     length matrix = 26%nat ->
     Forall (fun row => length row = 26%nat /\
                        Forall (fun v => 0 <= v <= 255) row) matrix ->
     exists data,
       with_open_wb path (fun f => write_matrix f matrix) (World fs out None)
       = (Ok tt, World (<[path := data]> fs) out None) /\
       length data = FILE_SIZE /\
       decode data = inr matrix) /\
  (forall data : list byte,
     (FILE_SIZE <= length data)%nat ->
     take 4 data <> MAGIC \/ data !! 4%nat <> Some "001"%byte ->
     decode data = inl MalformedFile) /\
  (forall data : list byte,
     (length data < FILE_SIZE)%nat -> decode data = inl TruncatedFile).
Proof.
  split; [|split; [exact decode_malformed|exact decode_truncated]].
  intros matrix path fs out Hlen Hall.
  assert (Hbytes : Forall (Forall (fun v => 0 <= v <= 255)) matrix).
  { eapply Forall_impl; [exact Hall|]. by intros row [_ Hrow]. }
  assert (Hrows : Forall (fun row => length row = 26%nat) matrix).
  { eapply Forall_impl; [exact Hall|]. by intros row [Hrow _]. }
  destruct (bytes_rows matrix Hbytes) as (chunks & Hwrite & Hback).
  destruct (chunks_shape matrix chunks Hback Hlen Hrows) as [Hclen Hcrows].
  exists (MAGIC ++ ["001"%byte] ++ concat chunks)%list.
  split; [|split].
  - by rewrite (with_open_wb_run path matrix chunks fs out None Hwrite).
  - apply (file_image_length chunks Hclen Hcrows).
  - rewrite (decode_image chunks Hclen Hcrows). by rewrite Hback.
Qed.

Lemma C7_decode_roundtrip_witness :
  (exists data,
     with_open_wb "m.bin" (fun f => write_matrix f (replicate 26 (replicate 26 2)))
                  (World ∅ [] None)
     = (Ok tt, World (<["m.bin" := data]> ∅) [] None) /\
     decode data = inr (replicate 26 (replicate 26 2))) /\
  decode (replicate 681 "000"%byte) = inl MalformedFile /\
  decode (replicate 680 "000"%byte) = inl TruncatedFile.
Proof.
  destruct C7_decode_roundtrip as (Hround & Hbad & Hshort).
  split; [|split].
  - destruct (Hround (replicate 26 (replicate 26 2)) "m.bin" ∅ [])
      as (data & Hrun & _ & Hdec).
    + reflexivity.
    + apply Forall_replicate. split; [reflexivity|].
      apply Forall_replicate. lia.
    + exists data. split; [exact Hrun|exact Hdec].
  - apply Hbad.
    + rewrite length_replicate. unfold FILE_SIZE. lia.
    + left. discriminate.
  - apply Hshort. rewrite length_replicate. unfold FILE_SIZE. lia.
Defined.

(** ** The command line driver *)

Lemma string_length_append (a b : string) :
  String.length (a +:+ b) = (String.length a + String.length b)%nat.
Proof.
  induction a as [|c a IH]; [reflexivity|].
  change (S (String.length (a +:+ b))
          = S (String.length a + String.length b)%nat).
  by rewrite IH.
Qed.

Lemma string_app_inv_tail (a b s : string) : a +:+ s = b +:+ s -> a = b.
Proof.
  revert b. induction a as [|c a IH]; intros [|d b] Heq.
  - reflexivity.
  - apply (f_equal String.length) in Heq.
    rewrite !string_length_append in Heq. cbn [String.length] in Heq. lia.
  - apply (f_equal String.length) in Heq.
    rewrite !string_length_append in Heq. cbn [String.length] in Heq. lia.
  - change (String c (a +:+ s) = String d (b +:+ s)) in Heq.
    injection Heq as -> Heq. f_equal. by apply IH.
Qed.

Lemma output_file_inj (dir a b : string) :
  output_file dir a = output_file dir b -> a = b.
Proof.
  unfold output_file, path_join.
  change (String.prefix "/" ("keyboard_" +:+ a +:+ ".bin")) with false.
  change (String.prefix "/" ("keyboard_" +:+ b +:+ ".bin")) with false.
  cbn iota. intros Heq. apply (string_app_inv_tail a b ".bin").
  apply (inj (String.append "keyboard_")).
  destruct (bool_decide (dir = "") || ends_with_sep dir).
  - by apply (inj (String.append dir)) in Heq.
  - apply (inj (String.append dir)) in Heq.
    by apply (inj (String.append "/")) in Heq.
Qed.

Lemma last_cons_default {A} (d x : A) (l : list A) :
  default d (last (x :: l)) = default x (last l).
Proof. rewrite last_cons. by destruct (last l). Qed.

Lemma verbose_occurs_cons (arg : cli_arg) (argv : list cli_arg) :
  bool_decide (ArgVerbose ∈ arg :: argv)
  = bool_decide (arg = ArgVerbose) || bool_decide (ArgVerbose ∈ argv).
Proof.
  rewrite <- bool_decide_or. apply bool_decide_ext.
  rewrite elem_of_cons.
  split; (intros [Heq|Hin]; [left; by symmetry|by right]).
Qed.

(** An accepted command line is parsed without an effect, every option
    storing its value over the one stored before. *)
Lemma parse_from_accepts (argv : list cli_arg) (args : namespace) (w : world) :
  accepted argv ->
  parse_from args [] argv w
  = (Ok (Namespace (default (layout args) (last (layout_values argv)))
                   (default (output args) (last (output_values argv)))
                   (verbose args || bool_decide (ArgVerbose ∈ argv))), w).
Proof.
  intros Hacc. revert args.
  induction Hacc as [|arg argv Harg _ IH]; intros args.
  - destruct args as [l o v]. cbn [parse_from layout_values output_values omap].
    rewrite decide_True by reflexivity.
    rewrite bool_decide_eq_false_2 by apply not_elem_of_nil.
    by rewrite orb_false_r.
  - rewrite verbose_occurs_cons.
    destruct arg as [value|value| | | |text]; cbn [parse_from];
      try (by destruct Harg).
    + rewrite decide_True by exact Harg. rewrite IH.
      cbn [layout output verbose layout_values output_values omap list_omap].
      by rewrite last_cons_default.
    + rewrite IH.
      cbn [layout output verbose layout_values output_values omap list_omap].
      by rewrite last_cons_default.
    + rewrite IH.
      cbn [layout output verbose layout_values output_values omap list_omap].
      rewrite (bool_decide_eq_true_2 (ArgVerbose = ArgVerbose)) by reflexivity.
      by rewrite orb_true_r.
Qed.

Lemma parse_args_accepts (argv : list cli_arg) (w : world) :
  accepted argv -> parse_args argv w = (Ok (requested argv), w).
Proof. intros Hacc. unfold parse_args. by rewrite parse_from_accepts. Qed.

(** A [--layout] value outside the choices ends the parsing with status 2
    when the parser reaches it, which it does unless it meets [-h]
    first. *)
Lemma parse_from_rejects (pre post : list cli_arg) (bad : string)
    (args : namespace) (extras : list string) (w : world) :
  ArgHelp ∉ pre -> bad ∉ layout_choices ->
  parse_from args extras (pre ++ ArgLayout bad :: post) w
  = (Raise (SystemExit 2), w).
Proof.
  intros Hhelp Hbad. revert args extras.
  induction pre as [|arg pre IH]; intros args extras.
  - cbn [app parse_from]. by rewrite decide_False.
  - assert (Hpre : ArgHelp ∉ pre).
    { intros Hin. apply Hhelp. by right. }
    destruct arg as [value|value| | | |text]; cbn [app parse_from].
    + destruct (decide (value ∈ layout_choices)); [by apply IH|reflexivity].
    + by apply IH.
    + by apply IH.
    + exfalso. apply Hhelp. left.
    + reflexivity.
    + by apply IH.
Qed.

(** Parsing only ever prints the help: a command line that is parsed
    leaves the world as it was. *)
Lemma parse_from_ok (argv : list cli_arg) (args parsed : namespace)
    (extras : list string) (w w' : world) :
  parse_from args extras argv w = (Ok parsed, w') -> w' = w.
Proof.
  revert args extras.
  induction argv as [|arg argv IH]; intros args extras.
  - cbn [parse_from]. destruct (decide (extras = [])); [|discriminate].
    by intros [= _ ->].
  - destruct arg as [value|value| | | |text]; cbn [parse_from];
      try apply IH; try discriminate.
    destruct (decide (value ∈ layout_choices)); [apply IH|discriminate].
Qed.

Lemma requested_layout_choice (argv : list cli_arg) :
  accepted argv -> layout (requested argv) ∈ layout_choices.
Proof.
  intros Hacc. cbn [requested layout].
  destruct (last (layout_values argv)) as [value|] eqn:Hlast.
  - apply last_Some_elem_of, list_elem_of_omap in Hlast as (arg & Harg & Hvalue).
    rewrite (Forall_forall acceptable argv) in Hacc. specialize (Hacc arg Harg).
    destruct arg; try discriminate. by injection Hvalue as <-.
  - unfold layout_choices. apply elem_of_app. right. left.
Qed.

Lemma layouts_get_known (name : string) :
  name ∈ LAYOUTS.*1 -> exists rows, layouts_get name = Ok rows.
Proof.
  unfold LAYOUTS. cbn [fmap list_fmap fst].
  rewrite !elem_of_cons, elem_of_nil.
  intros [->|[->|[->|[->|[->|[]]]]]]; eexists; reflexivity.
Qed.

Lemma selected_layouts_known (args : namespace) (name : string) :
  layout args ∈ layout_choices -> name ∈ selected_layouts args ->
  name ∈ LAYOUTS.*1.
Proof.
  unfold selected_layouts, layout_choices. intros Hargs Hname.
  destruct (decide (layout args = "all")) as [Hall|Hnot]; [exact Hname|].
  apply list_elem_of_singleton in Hname as ->.
  apply elem_of_app in Hargs as [Hargs|Hargs]; [exact Hargs|].
  by apply list_elem_of_singleton in Hargs.
Qed.

Lemma print_run (line : string) fs out fa :
  print line (World fs out fa) = (Ok tt, World fs (out ++ [line]) fa).
Proof. reflexivity. Qed.

Lemma print_bind {B} (line : string) (k : unit -> IO B) fs out fa :
  (print line ≫= k) (World fs out fa) = k tt (World fs (out ++ [line]) fa).
Proof. reflexivity. Qed.

Lemma for_each_prints {A} (l : list A) (body : A -> IO unit)
    (line : A -> string) fs out fa :
  (forall x, x ∈ l -> body x = print (line x)) ->
  for_each l body (World fs out fa)
  = (Ok tt, World fs (out ++ (line <$> l)) fa).
Proof.
  revert out. induction l as [|x l IH]; intros out Hbody.
  - cbn [for_each fmap list_fmap]. by rewrite app_nil_r.
  - cbn [for_each]. rewrite io_bind_run, (Hbody x) by left. rewrite print_run.
    rewrite IH by (intros y Hy; apply Hbody; by right).
    rewrite fmap_cons. by rewrite <- app_assoc.
Qed.

Lemma print_adjacency_info_run (layout_name : string) rows fs out fa :
  exists out',
    print_adjacency_info layout_name rows (World fs out fa)
    = (Ok tt, World fs (out ++ out') fa).
Proof.
  unfold print_adjacency_info. cbn zeta.
  generalize (get_adjacent_keys rows) as adjacent. intros adjacent.
  rewrite io_bind_run, print_run. eexists (_ :: _).
  rewrite (for_each_prints _ _
             (fun key => "  " +:+ key +:+ ": " +:+
                join ", " (sorted (elements (default ∅ (adjacent !! key)))))).
  - rewrite <- app_assoc. reflexivity.
  - intros key Hkey. unfold sorted in Hkey.
    rewrite merge_sort_Permutation in Hkey.
    apply elem_of_elements, elem_of_dom in Hkey as [neighbors Hkey].
    by rewrite Hkey.
Qed.

Lemma generate_layout_run (args : namespace) (layout_name : string) rows fs out :
  layouts_get layout_name = Ok rows ->
  exists (data : list byte) (out' : list string),
    generate_layout args layout_name (World fs out None)
    = (Ok tt,
       World (<[output_file (output args) layout_name := data]> fs)
             (out ++ ["Generating " +:+ layout_name +:+ "...";
                      "  Written 681 bytes to "
                        +:+ output_file (output args) layout_name] ++ out')%list
             None) /\
    layout_image (compute_distance_matrix rows) data /\
    length data = 681%nat.
Proof.
  intros Hrows.
  destruct (layout_chunks rows) as (chunks & Hall & Hback & Hlen & Hclen).
  pose proof (file_image_length chunks Hlen Hclen) as Hsize.
  assert (Himage : layout_image (compute_distance_matrix rows)
                     (MAGIC ++ ["001"%byte] ++ concat chunks)%list).
  { exists chunks. split; [reflexivity|exact Hback]. }
  exists (MAGIC ++ ["001"%byte] ++ concat chunks)%list.
  unfold generate_layout. rewrite io_bind_run. unfold lift at 1. rewrite Hrows.
  cbn zeta. rewrite io_bind_run, print_run, io_bind_run.
  rewrite (write_layout_file_run _ rows chunks fs _ None Hall). cbn zeta.
  rewrite file_pieces_concat, Hsize.
  change (written_line 681 ?p) with ("  Written 681 bytes to " +:+ p).
  destruct (verbose args).
  - destruct (print_adjacency_info_run layout_name rows
                (<[output_file (output args) layout_name :=
                     (MAGIC ++ ["001"%byte] ++ concat chunks)%list]> fs)
                ((out ++ ["Generating " +:+ layout_name +:+ "..."]) ++
                   ["  Written 681 bytes to "
                      +:+ output_file (output args) layout_name])%list None)
      as [out' Hprint].
    exists out'. split; [|split; [exact Himage|reflexivity]].
    rewrite Hprint. rewrite <- !app_assoc. reflexivity.
  - exists []. split; [|split; [exact Himage|reflexivity]].
    cbn [mret IO_ret]. rewrite <- !app_assoc. reflexivity.
Qed.

Lemma generated_output_incl args name fs (out1 out2 : list string) :
  (forall line, line ∈ out1 -> line ∈ out2) ->
  generated args name fs out1 -> generated args name fs out2.
Proof.
  intros Hincl (rows & data & Hrows & Hfile & Himage & Hsize & Hline1 & Hline2).
  exists rows, data. repeat split; try assumption; by apply Hincl.
Qed.

Lemma generate_each_run (args : namespace) (names : list string) fs out :
  (forall name, name ∈ names -> exists rows, layouts_get name = Ok rows) ->
  exists fs' (out' : list string),
    for_each names (generate_layout args) (World fs out None)
    = (Ok tt, World fs' (out ++ out')%list None) /\
    (forall name, name ∈ names -> generated args name fs' (out ++ out')%list) /\
    (forall path,
       (forall name, name ∈ names -> path <> output_file (output args) name) ->
       fs' !! path = fs !! path).
Proof.
  revert fs out. induction names as [|name names IH]; intros fs out Hknown.
  - exists fs, []. rewrite app_nil_r. split; [reflexivity|].
    split; [|reflexivity]. intros name Hname. by apply elem_of_nil in Hname.
  - destruct (Hknown name) as [rows Hrows]; [left|].
    destruct (generate_layout_run args name rows fs out Hrows)
      as (data & lines & Hrun & Himage & Hsize).
    destruct (IH (<[output_file (output args) name := data]> fs)
                 (out ++ ["Generating " +:+ name +:+ "...";
                          "  Written 681 bytes to "
                            +:+ output_file (output args) name] ++ lines)%list)
      as (fs' & out' & Hloop & Hgen & Hkeep).
    { intros other Hother. apply Hknown. by right. }
    exists fs', ((["Generating " +:+ name +:+ "...";
                   "  Written 681 bytes to "
                     +:+ output_file (output args) name] ++ lines) ++ out')%list.
    rewrite (app_assoc out). split; [|split].
    + cbn [for_each]. rewrite io_bind_run, Hrun. exact Hloop.
    + intros other Hother.
      destruct (decide (other ∈ names)) as [Hin|Hnotin]; [by apply Hgen|].
      apply elem_of_cons in Hother as [->|Hother]; [|done].
      exists rows, data. split; [exact Hrows|]. split.
      { rewrite Hkeep.
        - apply lookup_insert_eq.
        - intros other Hother Heq. apply output_file_inj in Heq.
          by subst other. }
      split; [exact Himage|]. split; [exact Hsize|].
      split; apply elem_of_app; left; apply elem_of_app; right;
        [left|right; left].
    + intros path Hpath. rewrite Hkeep.
      * apply lookup_insert_ne. intros Heq. by apply (Hpath name); [left|].
      * intros other Hother. apply Hpath. by right.
Qed.

Lemma main_rejects (pre post : list cli_arg) (bad : string) (w : world) :
  ArgHelp ∉ pre -> bad ∉ layout_choices ->
  main (pre ++ ArgLayout bad :: post) w = (Raise (SystemExit 2), w).
Proof.
  intros Hhelp Hbad. unfold main, parse_args.
  by rewrite io_bind_run, parse_from_rejects.
Qed.

Lemma main_generates (argv : list cli_arg) fs out :
  accepted argv ->
  exists fs' (out' : list string),
    main argv (World fs out None)
    = (Ok tt, World fs' (out ++ out')%list None) /\
    (forall name, name ∈ selected_layouts (requested argv) ->
       generated (requested argv) name fs' (out ++ out')%list) /\
    (forall path,
       (forall name, name ∈ selected_layouts (requested argv) ->
          path <> output_file (output (requested argv)) name) ->
       fs' !! path = fs !! path).
Proof.
  intros Hacc.
  pose proof (requested_layout_choice argv Hacc) as Hlayout.
  pose proof (parse_args_accepts argv (World fs out None) Hacc) as Hparse.
  revert Hlayout Hparse. generalize (requested argv) as args.
  intros args Hlayout Hparse.
  destruct (generate_each_run args (selected_layouts args) fs
              (((out ++ ["Generating keyboard layout files..."]) ++
                  ["  Output directory: " +:+ output args]) ++ [""])%list)
    as (fs' & lines & Hloop & Hgen & Hkeep).
  { intros name Hname. apply layouts_get_known.
    by apply (selected_layouts_known args). }
  exists fs'. eexists. split; [|split; [|exact Hkeep]].
  - unfold main. rewrite io_bind_run, Hparse. cbn zeta.
    fold (selected_layouts args).
    rewrite io_bind_run. unfold makedirs. rewrite syscall_run.
    rewrite !print_bind. rewrite io_bind_run, Hloop. cbn beta iota.
    rewrite !print_bind, print_run.
    rewrite <- !app_assoc. reflexivity.
  - intros name Hname. specialize (Hgen name Hname).
    revert Hgen. apply generated_output_incl. intros line.
    rewrite !elem_of_app. tauto.
Qed.

(** C8 (as the code has it): the command line selects one layout name or
    [all]: the last [--layout] value counts, and [all], also the default,
    stands for the five built-in layouts. A [--layout] value that is
    neither a built-in name nor [all] makes the argument parser end the
    run with exit status 2 when it reads it, before anything else happens:
    nothing is written or printed, also not for the valid names given
    before it. When the command line is accepted and no I/O operation
    fails, the run returns nothing and every selected layout has its
    681-byte file and the two lines of its report; no other file is
    touched. *)
Theorem C8_batch_generation :
  layout_choices = ["qwerty"; "azerty"; "qwertz"; "dvorak"; "colemak"; "all"] /\
  (forall (pre post : list cli_arg) (bad : string) (w : world),
     ArgHelp ∉ pre -> bad ∉ layout_choices ->
     main (pre ++ ArgLayout bad :: post) w = (Raise (SystemExit 2), w)) /\
  (forall (argv : list cli_arg) (w : world),
     accepted argv -> parse_args argv w = (Ok (requested argv), w)) /\
  (forall (argv : list cli_arg) (fs : gmap string (list byte))
          (out : list string),
     accepted argv ->
     exists fs' (out' : list string),
       main argv (World fs out None)
       = (Ok tt, World fs' (out ++ out')%list None) /\
       (forall name, name ∈ selected_layouts (requested argv) ->
          generated (requested argv) name fs' (out ++ out')%list) /\
       (forall path,
          (forall name, name ∈ selected_layouts (requested argv) ->
             path <> output_file (output (requested argv)) name) ->
          fs' !! path = fs !! path)).
Proof.
  split; [reflexivity|]. split; [exact main_rejects|].
  split; [exact parse_args_accepts|exact main_generates].
Qed.

Lemma C8_batch_generation_witness :
  main ([ArgVerbose; ArgLayout "dvorak"] ++ ArgLayout "bogus" :: [ArgLayout "qwerty"])
       (World ∅ [] None)
  = (Raise (SystemExit 2), World ∅ [] None) /\
  parse_args [ArgLayout "qwerty"; ArgOutput "out"; ArgLayout "dvorak"]
             (World ∅ [] None)
  = (Ok (Namespace "dvorak" "out" false), World ∅ [] None) /\
  exists fs' out',
    main [ArgLayout "qwerty"; ArgOutput "out"; ArgLayout "dvorak"]
         (World ∅ [] None)
    = (Ok tt, World fs' out' None) /\
    generated (Namespace "dvorak" "out" false) "dvorak" fs' out'.
Proof.
  assert (Hacc : accepted [ArgLayout "qwerty"; ArgOutput "out";
                           ArgLayout "dvorak"]).
  { repeat constructor. }
  destruct C8_batch_generation as (_ & Hreject & Hparse & Hrun).
  split; [|split].
  - apply Hreject.
    + refine (bool_decide_unpack _ _); vm_compute; exact I.
    + refine (bool_decide_unpack _ _); vm_compute; exact I.
  - apply (Hparse _ _ Hacc).
  - destruct (Hrun _ ∅ [] Hacc) as (fs' & out' & Hmain & Hgen & _).
    exists fs', out'. split; [exact Hmain|].
    apply Hgen. left.
Defined.

(** C8 (as the spec states it) fails: a request with the valid name
    [qwerty] and the unknown name [bogus] ends with exit status 2; the
    layout [qwerty] is not generated, nothing is reported, and no count of
    failures is returned. *)
Lemma C8_unknown_name_counterexample :
  let '(r, w) := main [ArgLayout "qwerty"; ArgLayout "bogus"]
                      (World ∅ [] None) in
  r = Raise (SystemExit 2) /\
  files w !! "./keyboard_layouts/keyboard_qwerty.bin" = None /\
  stdout w = [].
Proof. vm_compute. repeat split. Qed.

(** * Further properties of the generator *)

Local Close Scope string_scope.

(** ** The position mapping as a dict *)

Lemma foldl_insert_last (l1 l2 : list (string * (Z * Z))) m k v :
  k ∉ l2.*1 ->
  foldl insert_entry m (l1 ++ (k, v) :: l2)%list !! k = Some v.
Proof.
  intros Hk. rewrite foldl_app. cbn [foldl].
  rewrite foldl_insert_notin by exact Hk.
  unfold insert_entry. apply lookup_insert_eq.
Qed.

Lemma foldl_insert_origin (l : list (string * (Z * Z))) m k v :
  foldl insert_entry m l !! k = Some v -> (k, v) ∈ l \/ m !! k = Some v.
Proof.
  revert m. induction l as [|[k' v'] l IH]; intros m Hlook; [by right|].
  cbn [foldl] in Hlook. apply IH in Hlook as [Hin|Hlook].
  - left. by right.
  - unfold insert_entry in Hlook. cbn [fst snd] in Hlook.
    destruct (decide (k' = k)) as [->|Hne].
    + rewrite lookup_insert_eq in Hlook. injection Hlook as ->. left. left.
    + rewrite lookup_insert_ne in Hlook by exact Hne. by right.
Qed.

Lemma zip_seq_middle {A} (n : nat) (l1 l2 : list A) (x : A) :
  zip (seq n (length (l1 ++ x :: l2))) (l1 ++ x :: l2)
  = (zip (seq n (length l1)) l1
     ++ (n + length l1, x)%nat
     :: zip (seq (S (n + length l1)) (length l2)) l2)%list.
Proof.
  rewrite length_app. cbn [length]. rewrite seq_app.
  rewrite zip_with_app by (by rewrite length_seq).
  reflexivity.
Qed.

Lemma enumerate_middle {A} (l1 l2 : list A) (x : A) :
  enumerate (l1 ++ x :: l2)
  = enumerate l1 ++ (length l1, x)
    :: zip (seq (S (length l1)) (length l2)) l2.
Proof. unfold enumerate. by rewrite zip_seq_middle. Qed.

Lemma row_entries_keys (r : nat) (cs : list nat) (row : list string) :
  (length row <= length cs)%nat ->
  ((fun '(c, key) => (key, coords r c)) <$> zip cs row).*1 = row.
Proof.
  intros Hlen. rewrite <- list_fmap_compose.
  rewrite <- (snd_zip cs row Hlen) at 2.
  apply list_fmap_ext. by intros _ [c key] _.
Qed.

Lemma rows_entries_keys (l : list (nat * list string)) :
  (l ≫= fun '(r, row) =>
     (fun '(c, key) => (key, coords r c)) <$> enumerate row).*1
  = concat l.*2.
Proof.
  induction l as [|[r row] l IH]; [reflexivity|].
  rewrite bind_cons, fmap_app, fmap_cons, IH. cbn [concat snd]. f_equal.
  apply row_entries_keys. unfold enumerate. by rewrite length_seq.
Qed.

Lemma key_coords_app_cons (rs1 rs2 : list (list string))
    (ks1 ks2 : list string) (key : string) :
  exists before after : list (string * (Z * Z)),
    key_coords (rs1 ++ (ks1 ++ key :: ks2) :: rs2)
    = (before ++ (key, coords (length rs1) (length ks1)) :: after)%list /\
    after.*1 = (ks2 ++ concat rs2)%list.
Proof.
  unfold key_coords.
  rewrite enumerate_middle, bind_app, bind_cons. cbn beta iota.
  rewrite enumerate_middle, fmap_app, fmap_cons.
  match goal with
  | |- exists _ _, (?A ++ (?B ++ ?x :: ?C) ++ ?D)%list = _ /\ _ =>
      exists (A ++ B)%list, (C ++ D)%list
  end.
  split.
  - rewrite <- !app_assoc. reflexivity.
  - rewrite fmap_app. f_equal.
    + apply row_entries_keys. by rewrite length_seq.
    + pose proof (rows_entries_keys
                    (zip (seq (S (length rs1)) (length rs2)) rs2)) as Hlater.
      rewrite snd_zip in Hlater by (by rewrite length_seq).
      exact Hlater.
Qed.

(** The assignments are those before the occurrence at row [r], column
    [c], the one of that occurrence, and those after it. *)
Lemma key_coords_middle rows r row c key :
  rows !! r = Some row -> row !! c = Some key ->
  exists before after : list (string * (Z * Z)),
    key_coords rows = (before ++ (key, coords r c) :: after)%list /\
    after.*1 = (drop (S c) row ++ concat (drop (S r) rows))%list.
Proof.
  intros Hrow Hkey.
  pose proof (take_drop_middle rows r row Hrow) as Hrows.
  pose proof (take_drop_middle row c key Hkey) as Hcols.
  pose proof (lookup_lt_Some _ _ _ Hrow) as Hr.
  pose proof (lookup_lt_Some _ _ _ Hkey) as Hc.
  destruct (key_coords_app_cons (take r rows) (drop (S r) rows)
              (take c row) (drop (S c) row) key)
    as (before & after & Hsplit & Hafter).
  rewrite Hcols, Hrows in Hsplit.
  rewrite !length_take, !Nat.min_l in Hsplit by lia.
  by exists before, after.
Qed.

(** X1: when a key occurs several times, its last occurrence (in the order
    of the rows, then of the columns) decides its coordinate. *)
Theorem X1_last_assignment_wins (rows : list (list string))
    (r c : nat) (row : list string) (key : string) :
  rows !! r = Some row -> row !! c = Some key ->
  key ∉ drop (S c) row -> key ∉ concat (drop (S r) rows) ->
  get_key_positions rows !! key
  = Some (Z.of_nat r * 2, Z.of_nat c * 2 + row_offset r).
Proof.
  intros Hrow Hkey Hrest Hlater.
  destruct (key_coords_middle rows r row c key Hrow Hkey)
    as (before & after & Hsplit & Hafter).
  rewrite get_key_positions_entries, Hsplit.
  apply foldl_insert_last. rewrite Hafter, elem_of_app. tauto.
Qed.

Lemma X1_last_assignment_wins_witness :
  get_key_positions [chars "ab"; chars "ca"; chars "d"] !! "a" = Some (2, 3).
Proof.
  apply (X1_last_assignment_wins [chars "ab"; chars "ca"; chars "d"]
           1 1 (chars "ca") "a"); try reflexivity;
    refine (bool_decide_unpack _ _); vm_compute; exact I.
Defined.

Lemma elem_of_key_coords_inv rows key pos :
  (key, pos) ∈ key_coords rows ->
  exists r row c, rows !! r = Some row /\ row !! c = Some key /\ pos = coords r c.
Proof.
  unfold key_coords. intros Hin.
  apply list_elem_of_bind in Hin as ([r row] & Hin & Hrow).
  apply list_elem_of_fmap in Hin as ([c key'] & Heq & Hkey).
  injection Heq as -> ->.
  exists r, row, c. split; [by apply elem_of_enumerate|].
  split; [by apply elem_of_enumerate|reflexivity].
Qed.

(** X2: a key has a position exactly when it occurs in a row, and the
    position stored for it is the coordinate of one of its occurrences. *)
Theorem X2_positions_from_occurrences (rows : list (list string))
    (key : string) :
  (is_Some (get_key_positions rows !! key) <-> key ∈ concat rows) /\
  (forall pos, get_key_positions rows !! key = Some pos ->
     exists r row c,
       rows !! r = Some row /\ row !! c = Some key /\
       pos = (Z.of_nat r * 2, Z.of_nat c * 2 + row_offset r)).
Proof.
  split.
  - split; [|apply get_key_positions_present].
    intros [pos Hpos]. destruct (decide (key ∈ concat rows)) as [|Hnot]; [done|].
    rewrite (get_key_positions_absent rows key Hnot) in Hpos. discriminate.
  - intros pos Hpos. rewrite get_key_positions_entries in Hpos.
    apply foldl_insert_origin in Hpos as [Hin|Hempty].
    + by apply elem_of_key_coords_inv.
    + rewrite lookup_empty in Hempty. discriminate.
Qed.

Lemma X2_positions_from_occurrences_witness :
  exists r row c,
    QWERTY_ROWS !! r = Some row /\ row !! c = Some "m" /\
    (4, 15) = (Z.of_nat r * 2, Z.of_nat c * 2 + row_offset r).
Proof.
  destruct (X2_positions_from_occurrences QWERTY_ROWS "m") as [_ Hocc].
  apply (Hocc (4, 15)). reflexivity.
Defined.

Lemma coords_inj r1 c1 r2 c2 : coords r1 c1 = coords r2 c2 -> r1 = r2 /\ c1 = c2.
Proof.
  unfold coords. intros Heq. injection Heq as Hr Hc.
  assert (r1 = r2) as -> by lia. split; [reflexivity|lia].
Qed.

(** X3: two different keys never get the same coordinate. *)
Theorem X3_positions_injective (rows : list (list string))
    (key1 key2 : string) (pos1 pos2 : Z * Z) :
  key1 <> key2 ->
  get_key_positions rows !! key1 = Some pos1 ->
  get_key_positions rows !! key2 = Some pos2 ->
  pos1 <> pos2.
Proof.
  intros Hne Hpos1 Hpos2 Heq. subst pos2.
  rewrite get_key_positions_entries in Hpos1, Hpos2.
  apply foldl_insert_origin in Hpos1 as [Hin1|Hempty];
    [|rewrite lookup_empty in Hempty; discriminate].
  apply foldl_insert_origin in Hpos2 as [Hin2|Hempty];
    [|rewrite lookup_empty in Hempty; discriminate].
  apply elem_of_key_coords_inv in Hin1 as (r1 & row1 & c1 & Hrow1 & Hkey1 & ->).
  apply elem_of_key_coords_inv in Hin2 as (r2 & row2 & c2 & Hrow2 & Hkey2 & Heq).
  apply coords_inj in Heq as [-> ->].
  rewrite Hrow1 in Hrow2. injection Hrow2 as ->.
  rewrite Hkey1 in Hkey2. by injection Hkey2.
Qed.

Lemma X3_positions_injective_witness : (2, 1) <> ((2, 3) : Z * Z).
Proof.
  apply (X3_positions_injective QWERTY_ROWS "a" "s"); [discriminate|reflexivity..].
Defined.

(** ** More on the distance matrix *)

Lemma letter_inj (i j : nat) :
  (i < 26)%nat -> (j < 26)%nat -> letter i = letter j -> i = j.
Proof.
  unfold letter. intros Hi Hj Heq. injection Heq as Heq.
  apply (f_equal nat_of_ascii) in Heq.
  rewrite !nat_ascii_embedding in Heq by lia. lia.
Qed.

(** X4: an entry is 0 on the diagonal and nowhere else. *)
Theorem X4_zero_iff_diagonal (rows : list (list string)) (i j : nat) :
  (i < 26)%nat -> (j < 26)%nat ->
  matrix_get (compute_distance_matrix rows) i j = Some 0 <-> i = j.
Proof.
  intros Hi Hj. rewrite (matrix_get_class rows i j Hi Hj).
  unfold distance_class. split.
  - intros Hzero. destruct (decide (i = j)) as [|Hne]; [done|].
    apply (inj Some) in Hzero.
    destruct (get_key_positions rows !! letter i) as [[ri ci]|]; [|discriminate].
    destruct (get_key_positions rows !! letter j) as [[rj cj]|]; [|discriminate].
    cbn zeta in Hzero. repeat case_decide; discriminate.
  - intros ->. by rewrite decide_True.
Qed.

Lemma X4_zero_iff_diagonal_witness :
  matrix_get (compute_distance_matrix DVORAK_ROWS) 7 7 = Some 0.
Proof.
  apply (X4_zero_iff_diagonal DVORAK_ROWS 7 7); [lia..|reflexivity].
Defined.

Lemma distance_class_at (positions : gmap string (Z * Z)) i j ri ci rj cj :
  i <> j ->
  positions !! letter i = Some (ri, ci) ->
  positions !! letter j = Some (rj, cj) ->
  distance_class positions i j
  = let cheb := Z.max (Z.abs (ri - rj)) (Z.abs (ci - cj)) in
    if decide (cheb <= 2) then 1 else if decide (cheb <= 4) then 2 else 255.
Proof.
  intros Hne Hi Hj. unfold distance_class.
  rewrite decide_False by exact Hne. by rewrite Hi, Hj.
Qed.

(** X5: in a layout with distinct keys, two letters of the same row are
    class 1 when they are next to each other, class 2 when one key lies
    between them, and class 255 when they are further apart. *)
Theorem X5_same_row_classes (rows : list (list string)) (r c1 c2 : nat)
    (row : list string) (i j : nat) :
  distinct_keys rows -> (i < 26)%nat -> (j < 26)%nat ->
  rows !! r = Some row ->
  row !! c1 = Some (letter i) -> row !! c2 = Some (letter j) -> c1 <> c2 ->
  let d := Z.abs (Z.of_nat c1 - Z.of_nat c2) in
  matrix_get (compute_distance_matrix rows) i j
  = Some (if decide (d = 1) then 1 else if decide (d = 2) then 2 else 255).
Proof.
  intros Hnd Hi Hj Hrow Hc1 Hc2 Hne d.
  pose proof (get_key_positions_lookup rows r row c1 _ Hnd Hrow Hc1) as Hp1.
  pose proof (get_key_positions_lookup rows r row c2 _ Hnd Hrow Hc2) as Hp2.
  assert (Hij : i <> j).
  { intros ->. rewrite Hp1 in Hp2. apply (inj Some) in Hp2.
    apply coords_inj in Hp2 as [_ Heq]. done. }
  rewrite (matrix_get_class rows i j Hi Hj).
  rewrite (distance_class_at _ i j _ _ _ _ Hij Hp1 Hp2).
  cbn zeta. subst d. f_equal. repeat case_decide; (reflexivity || lia).
Qed.

Lemma X5_same_row_classes_witness :
  matrix_get (compute_distance_matrix QWERTY_ROWS) 16 4 = Some 2.
Proof.
  assert (Hd : distinct_keys QWERTY_ROWS).
  { unfold distinct_keys. refine (bool_decide_unpack _ _); vm_compute; exact I. }
  apply (X5_same_row_classes QWERTY_ROWS 0 0 2 (chars "qwertyuiop") 16 4 Hd);
    (lia || reflexivity).
Defined.

(** X6: in a layout with distinct keys, class 1 occurs only between
    letters of the same row or of neighbouring rows, and class 2 only
    between letters at most two rows apart. *)
Theorem X6_classes_bound_rows (rows : list (list string))
    (r1 c1 r2 c2 : nat) (row1 row2 : list string) (i j : nat) :
  distinct_keys rows -> (i < 26)%nat -> (j < 26)%nat ->
  rows !! r1 = Some row1 -> row1 !! c1 = Some (letter i) ->
  rows !! r2 = Some row2 -> row2 !! c2 = Some (letter j) ->
  let entry := matrix_get (compute_distance_matrix rows) i j in
  let row_distance := Z.abs (Z.of_nat r1 - Z.of_nat r2) in
  (entry = Some 1 -> row_distance <= 1) /\
  (entry = Some 2 -> row_distance <= 2) /\
  (3 <= row_distance -> entry = Some 255).
Proof.
  intros Hnd Hi Hj Hrow1 Hc1 Hrow2 Hc2 entry row_distance.
  pose proof (get_key_positions_lookup rows r1 row1 c1 _ Hnd Hrow1 Hc1) as Hp1.
  pose proof (get_key_positions_lookup rows r2 row2 c2 _ Hnd Hrow2 Hc2) as Hp2.
  subst entry row_distance. rewrite (matrix_get_class rows i j Hi Hj).
  destruct (decide (i = j)) as [->|Hij].
  - rewrite Hp1 in Hp2. apply (inj Some) in Hp2.
    apply coords_inj in Hp2 as [-> _].
    unfold distance_class. rewrite decide_True by reflexivity.
    repeat split; intros H; (discriminate || lia).
  - rewrite (distance_class_at _ i j _ _ _ _ Hij Hp1 Hp2). cbn zeta.
    repeat split; intros H; repeat case_decide;
      try discriminate; try reflexivity; lia.
Qed.

Lemma X6_classes_bound_rows_witness :
  matrix_get (compute_distance_matrix [chars "a"; chars "b"; chars "c"; chars "d"])
             0 3 = Some 255.
Proof.
  assert (Hd : distinct_keys [chars "a"; chars "b"; chars "c"; chars "d"]).
  { unfold distinct_keys. refine (bool_decide_unpack _ _); vm_compute; exact I. }
  destruct (X6_classes_bound_rows
              [chars "a"; chars "b"; chars "c"; chars "d"]
              0 0 3 0 (chars "a") (chars "d") 0 3 Hd) as (_ & _ & Hfar);
    [lia|lia|reflexivity..|].
  apply Hfar. cbn. lia.
Defined.

Lemma matrix_ext (n : nat) (m1 m2 : list (list Z)) :
  length m1 = n -> length m2 = n ->
  (forall row, row ∈ m1 -> length row = n) ->
  (forall row, row ∈ m2 -> length row = n) ->
  (forall i j, (i < n)%nat -> (j < n)%nat ->
     matrix_get m1 i j = matrix_get m2 i j) ->
  m1 = m2.
Proof.
  intros Hlen1 Hlen2 Hrows1 Hrows2 Hget. apply list_eq. intros i.
  destruct (decide (i < n)%nat) as [Hi|Hi].
  - destruct (lookup_lt_is_Some_2 m1 i) as [row1 Hrow1]; [lia|].
    destruct (lookup_lt_is_Some_2 m2 i) as [row2 Hrow2]; [lia|].
    rewrite Hrow1, Hrow2. f_equal. apply list_eq. intros j.
    pose proof (Hrows1 row1 (list_elem_of_lookup_2 _ _ _ Hrow1)) as Hl1.
    pose proof (Hrows2 row2 (list_elem_of_lookup_2 _ _ _ Hrow2)) as Hl2.
    destruct (decide (j < n)%nat) as [Hj|Hj].
    + specialize (Hget i j Hi Hj). unfold matrix_get in Hget.
      by rewrite Hrow1, Hrow2 in Hget.
    + by rewrite !lookup_ge_None_2 by lia.
  - by rewrite !lookup_ge_None_2 by lia.
Qed.

Lemma distance_class_agree (p1 p2 : gmap string (Z * Z)) i j :
  p1 !! letter i = p2 !! letter i -> p1 !! letter j = p2 !! letter j ->
  distance_class p1 i j = distance_class p2 i j.
Proof. intros Hi Hj. unfold distance_class. by rewrite Hi, Hj. Qed.

(** X7: the matrix is determined by the positions of the letters a..z;
    keys that are not among these letters have no influence on it. *)
Theorem X7_matrix_depends_on_letters (rows1 rows2 : list (list string)) :
  (forall i, (i < 26)%nat ->
     get_key_positions rows1 !! letter i = get_key_positions rows2 !! letter i) ->
  compute_distance_matrix rows1 = compute_distance_matrix rows2.
Proof.
  intros Hagree. apply (matrix_ext 26).
  - apply compute_distance_matrix_length.
  - apply compute_distance_matrix_length.
  - apply compute_distance_matrix_row_length.
  - apply compute_distance_matrix_row_length.
  - intros i j Hi Hj.
    rewrite (matrix_get_class rows1 i j Hi Hj), (matrix_get_class rows2 i j Hi Hj).
    f_equal. apply distance_class_agree; by apply Hagree.
Qed.

Lemma X7_matrix_depends_on_letters_witness :
  compute_distance_matrix (QWERTY_ROWS ++ [chars "1234567890"])
  = compute_distance_matrix QWERTY_ROWS.
Proof.
  apply X7_matrix_depends_on_letters. intros i Hi.
  do 26 (destruct i as [|i]; [vm_compute; reflexivity|]). lia.
Defined.

(** ** The adjacency view *)

Lemma get_adjacent_keys_unfold rows :
  get_adjacent_keys rows = adjacent_of (compute_distance_matrix rows).
Proof.
  unfold get_adjacent_keys.
  generalize (compute_distance_matrix rows) as matrix. intros matrix.
  unfold adjacent_of, neighbors_of. reflexivity.
Qed.

Lemma neighbors_fold (matrix : list (list Z)) (i : nat) (js : list nat)
    (start : gset string) (key : string) :
  key ∈ foldl (fun neighbors j =>
                 if decide (matrix !! i ≫= (.!! j) = Some 1)
                 then neighbors ∪ {[letter j]}
                 else neighbors) start js
  <-> key ∈ start \/
      exists j, j ∈ js /\ key = letter j /\ matrix_get matrix i j = Some 1.
Proof.
  revert start. induction js as [|j js IH]; intros start; cbn [foldl].
  - split; [by left|]. intros [Hin|(j & Hj & _)]; [done|].
    by apply elem_of_nil in Hj.
  - rewrite IH. unfold matrix_get. split.
    + intros [Hin|(j' & Hj' & Hkey & Hone)].
      * destruct (decide (matrix !! i ≫= (.!! j) = Some 1)) as [Hone|Hnot].
        -- apply elem_of_union in Hin as [Hin|Hin]; [by left|].
           apply elem_of_singleton in Hin. right. exists j.
           split; [left|done].
        -- by left.
      * right. exists j'. split; [by right|done].
    + intros [Hin|(j' & Hj' & Hkey & Hone)].
      * left. destruct (decide (matrix !! i ≫= (.!! j) = Some 1));
          [apply elem_of_union; by left|done].
      * apply elem_of_cons in Hj' as [->|Hj'].
        -- left. rewrite decide_True by exact Hone.
           apply elem_of_union. right. by apply elem_of_singleton.
        -- right. exists j'. done.
Qed.

Lemma neighbors_of_spec (matrix : list (list Z)) (i : nat) (key : string) :
  key ∈ neighbors_of matrix i
  <-> exists j, (j < 26)%nat /\ key = letter j /\ matrix_get matrix i j = Some 1.
Proof.
  unfold neighbors_of. rewrite neighbors_fold. split.
  - intros [Hin|(j & Hj & Hrest)]; [by apply not_elem_of_empty in Hin|].
    exists j. split; [|done]. apply elem_of_seq in Hj. lia.
  - intros (j & Hj & Hrest). right. exists j. split; [|done].
    apply elem_of_seq. lia.
Qed.

Lemma adjacent_fold_other (F : nat -> gset string) (idxs : list nat)
    (start : gmap string (gset string)) (key : string) :
  (forall i, i ∈ idxs -> letter i <> key) ->
  foldl (fun adjacent i => <[letter i := F i]> adjacent) start idxs !! key
  = start !! key.
Proof.
  revert start. induction idxs as [|i idxs IH]; intros start Hkey; [reflexivity|].
  cbn [foldl]. rewrite IH by (intros j Hj; apply Hkey; by right).
  apply lookup_insert_ne. apply Hkey. left.
Qed.

Lemma adjacent_fold_letter (F : nat -> gset string) (idxs : list nat)
    (start : gmap string (gset string)) (i : nat) :
  NoDup idxs -> (forall j, j ∈ idxs -> letter j = letter i -> j = i) ->
  i ∈ idxs ->
  foldl (fun adjacent i => <[letter i := F i]> adjacent) start idxs
    !! letter i = Some (F i).
Proof.
  revert start. induction idxs as [|k idxs IH]; intros start Hnd Hinj Hin.
  - by apply elem_of_nil in Hin.
  - cbn [foldl]. apply NoDup_cons in Hnd as [Hk Hnd].
    apply elem_of_cons in Hin as [->|Hin].
    + rewrite adjacent_fold_other.
      * apply lookup_insert_eq.
      * intros j Hj Heq. apply Hk. rewrite <- (Hinj j); [exact Hj|by right|exact Heq].
    + apply IH; [exact Hnd| |exact Hin].
      intros j Hj. apply Hinj. by right.
Qed.

Lemma adjacent_of_letter (matrix : list (list Z)) (i : nat) :
  (i < 26)%nat -> adjacent_of matrix !! letter i = Some (neighbors_of matrix i).
Proof.
  intros Hi. unfold adjacent_of.
  apply (adjacent_fold_letter (neighbors_of matrix)).
  - apply NoDup_seq.
  - intros j Hj Heq. apply elem_of_seq in Hj. apply letter_inj; [lia|exact Hi|exact Heq].
  - apply elem_of_seq. lia.
Qed.

Lemma adjacent_of_other (matrix : list (list Z)) (key : string) :
  (forall i, (i < 26)%nat -> key <> letter i) -> adjacent_of matrix !! key = None.
Proof.
  intros Hkey. unfold adjacent_of. rewrite adjacent_fold_other.
  - apply lookup_empty.
  - intros i Hi Heq. apply elem_of_seq in Hi. apply (Hkey i); [lia|done].
Qed.

(** X8: [get_adjacent_keys] has an entry for each of the letters a..z and
    for nothing else, and the set of a letter holds exactly the letters at
    distance 1 from it in the matrix. *)
Theorem X8_adjacent_keys (rows : list (list string)) :
  (forall key, is_Some (get_adjacent_keys rows !! key)
               <-> exists i, (i < 26)%nat /\ key = letter i) /\
  (forall i, (i < 26)%nat ->
     exists neighbors,
       get_adjacent_keys rows !! letter i = Some neighbors /\
       forall key,
         key ∈ neighbors
         <-> exists j, (j < 26)%nat /\ key = letter j /\
               matrix_get (compute_distance_matrix rows) i j = Some 1).
Proof.
  rewrite get_adjacent_keys_unfold.
  generalize (compute_distance_matrix rows) as matrix. intros matrix. split.
  - intros key. split.
    + intros Hsome.
      destruct (decide (Exists (fun i => key = letter i) (seq 0 26)))
        as [Hex|Hnot].
      * apply Exists_exists in Hex as (i & Hi & ->). exists i.
        apply elem_of_seq in Hi. split; [lia|reflexivity].
      * rewrite adjacent_of_other in Hsome; [by destruct Hsome|].
        intros i Hi ->. apply Hnot. apply Exists_exists. exists i.
        split; [apply elem_of_seq; lia|reflexivity].
    + intros (i & Hi & ->). rewrite adjacent_of_letter by exact Hi. by eexists.
  - intros i Hi. exists (neighbors_of matrix i).
    split; [by apply adjacent_of_letter|]. apply neighbors_of_spec.
Qed.

Lemma X8_adjacent_keys_witness :
  exists neighbors,
    get_adjacent_keys QWERTY_ROWS !! "q" = Some neighbors /\
    "w" ∈ neighbors.
Proof.
  destruct (X8_adjacent_keys QWERTY_ROWS) as [_ Hsets].
  destruct (Hsets 16%nat ltac:(lia)) as (neighbors & Hlook & Hmem).
  exists neighbors. split; [exact Hlook|].
  apply Hmem. exists 22%nat. split; [lia|]. split; reflexivity.
Defined.

(** X9: the adjacency view is symmetric, no letter is its own neighbour,
    and a letter that is in no row of the layout has no neighbour. *)
Theorem X9_adjacency_symmetric (rows : list (list string)) (i j : nat)
    (neighbors_i neighbors_j : gset string) :
  (i < 26)%nat -> (j < 26)%nat ->
  get_adjacent_keys rows !! letter i = Some neighbors_i ->
  get_adjacent_keys rows !! letter j = Some neighbors_j ->
  (letter j ∈ neighbors_i <-> letter i ∈ neighbors_j) /\
  (letter i ∉ neighbors_i) /\
  (letter i ∉ concat rows -> neighbors_i = ∅).
Proof.
  intros Hi Hj. rewrite get_adjacent_keys_unfold.
  rewrite !adjacent_of_letter by assumption.
  intros Hni Hnj. apply (inj Some) in Hni. apply (inj Some) in Hnj.
  subst neighbors_i neighbors_j.
  assert (Hmem : forall a b, (a < 26)%nat -> (b < 26)%nat ->
            letter b ∈ neighbors_of (compute_distance_matrix rows) a
            <-> distance_class (get_key_positions rows) a b = 1).
  { intros a b Ha Hb. rewrite neighbors_of_spec. split.
    - intros (b' & Hb' & Heq & Hone).
      apply letter_inj in Heq; [|assumption..]. subst b'.
      rewrite (matrix_get_class rows a b Ha Hb) in Hone.
      by apply (inj Some) in Hone.
    - intros Hone. exists b. split; [exact Hb|]. split; [reflexivity|].
      rewrite (matrix_get_class rows a b Ha Hb). by rewrite Hone. }
  split; [|split].
  - rewrite !Hmem by assumption. by rewrite distance_class_sym.
  - rewrite Hmem by assumption. unfold distance_class.
    rewrite decide_True by reflexivity. discriminate.
  - intros Habsent. apply get_key_positions_absent in Habsent.
    apply set_eq. intros key. split; [|by intros ?%not_elem_of_empty].
    rewrite neighbors_of_spec. intros (b & Hb & -> & Hone).
    rewrite (matrix_get_class rows i b Hi Hb) in Hone.
    apply (inj Some) in Hone. unfold distance_class in Hone.
    rewrite Habsent in Hone. by destruct (decide (i = b)).
Qed.

Lemma X9_adjacency_symmetric_witness :
  let matrix := compute_distance_matrix [chars "qw"; chars "a"] in
  (letter 16 ∈ neighbors_of matrix 0 <-> letter 0 ∈ neighbors_of matrix 16) /\
  letter 0 ∉ neighbors_of matrix 0.
Proof.
  destruct (X9_adjacency_symmetric [chars "qw"; chars "a"] 0 16
              (neighbors_of (compute_distance_matrix [chars "qw"; chars "a"]) 0)
              (neighbors_of (compute_distance_matrix [chars "qw"; chars "a"]) 16))
    as (Hsym & Hirr & _); [lia|lia|vm_compute; reflexivity..|].
  split; [exact Hsym|exact Hirr].
Defined.

(** ** More on the written file *)

Lemma concat_lookup_uniform {A} (n : nat) (chunks : list (list A)) (i j : nat) :
  Forall (fun chunk => length chunk = n) chunks -> (j < n)%nat ->
  concat chunks !! (n * i + j)%nat = chunks !! i ≫= (.!! j).
Proof.
  intros Hall Hj. revert i.
  induction Hall as [|chunk chunks Hchunk _ IH]; intros i; [reflexivity|].
  cbn [concat]. destruct i as [|i].
  - rewrite Nat.mul_0_r. cbn [Nat.add lookup list_lookup mbind option_bind].
    apply lookup_app_l. lia.
  - replace (n * S i + j)%nat with (length chunk + (n * i + j))%nat by lia.
    rewrite lookup_app_r by lia.
    replace (length chunk + (n * i + j) - length chunk)%nat
      with (n * i + j)%nat by lia.
    by rewrite IH.
Qed.

Lemma file_image_lookup (chunks : list (list byte)) (k : nat) :
  (MAGIC ++ ["001"%byte] ++ concat chunks) !! (5 + k)%nat = concat chunks !! k.
Proof. reflexivity. Qed.

(** X10: in the file written for a layout, the byte at offset
    [5 + 26 * i + j] is the matrix entry of the letters [i] and [j]. *)
Theorem X10_file_offsets (rows : list (list string)) (output_path : string)
    (fs : gmap string (list byte)) (out : list string) (i j : nat) :
  (i < 26)%nat -> (j < 26)%nat ->
  exists (data : list byte) (out' : list string),
    write_layout_file output_path rows (World fs out None)
    = (Ok tt, World (<[output_path := data]> fs) out' None) /\
    int_of_byte <$> data !! (5 + 26 * i + j)%nat
    = matrix_get (compute_distance_matrix rows) i j.
Proof.
  intros Hi Hj.
  destruct (layout_chunks rows) as (chunks & Hall & Hback & Hlen & Hrows).
  exists (MAGIC ++ ["001"%byte] ++ concat chunks). eexists. split.
  - rewrite (write_layout_file_run output_path rows chunks fs out None Hall).
    cbn zeta. by rewrite file_pieces_concat.
  - rewrite <- Nat.add_assoc, file_image_lookup.
    rewrite (concat_lookup_uniform 26 chunks i j Hrows Hj).
    rewrite <- Hback. unfold matrix_get. rewrite list_lookup_fmap.
    destruct (chunks !! i) as [chunk|]; [|reflexivity].
    cbn [mbind option_bind fmap option_fmap option_map].
    by rewrite list_lookup_fmap.
Qed.

Lemma X10_file_offsets_witness :
  exists (data : list byte) (out' : list string),
    write_layout_file "q.bin" QWERTY_ROWS (World ∅ [] None)
    = (Ok tt, World (<["q.bin" := data]> ∅) out' None) /\
    int_of_byte <$> data !! (5 + 26 * 16 + 22)%nat
    = matrix_get (compute_distance_matrix QWERTY_ROWS) 16 22.
Proof. apply (X10_file_offsets QWERTY_ROWS "q.bin" ∅ [] 16 22); lia. Defined.

(** X11: the writes of [write_layout_file] are buffered. Once the
    destination is open, the 28 writes of the header and of the rows ask
    nothing of the operating system and cannot fail, whatever the
    operating system is about to refuse: they leave the destination empty
    and the 681 bytes in the buffer of the file object, until the file is
    closed. *)
Theorem X11_writes_are_buffered (rows : list (list string))
    (output_path : string) (fs : gmap string (list byte)) (out : list string) :
  open_wb output_path (World fs out None)
  = (Ok output_path,
     MkWorld (<[output_path := []]> fs) out None (<[output_path := []]> ∅)) /\
  exists image : list byte,
    length image = 681%nat /\
    forall fa : option nat,
      write_matrix output_path (compute_distance_matrix rows)
        (MkWorld (<[output_path := []]> fs) out fa (<[output_path := []]> ∅))
      = (Ok tt,
         MkWorld (<[output_path := []]> fs) out fa
                 (<[output_path := image]> ∅)).
Proof.
  split; [reflexivity|].
  destruct (layout_chunks rows) as (chunks & Hall & _ & Hlen & Hrows).
  pose proof (file_image_length chunks Hlen Hrows) as Hsize.
  rewrite <- file_pieces_concat in Hsize.
  exists (concat (file_pieces chunks)). split; [exact Hsize|].
  intros fa. exact (write_matrix_run output_path _ chunks _ out fa ∅ Hall).
Qed.

(** X13: in one output directory the files of two different layout names
    have different paths. *)
Theorem X13_output_paths_distinct (output_dir name1 name2 : string) :
  name1 <> name2 ->
  output_file output_dir name1 <> output_file output_dir name2.
Proof. intros Hne Heq. apply Hne. by apply (output_file_inj output_dir). Qed.

Lemma X13_output_paths_distinct_witness :
  output_file "out/" "qwerty" <> output_file "out/" "qwertz".
Proof. apply X13_output_paths_distinct. discriminate. Defined.

(** ** The adjacency report *)

Lemma adjacent_of_domain (matrix : list (list Z)) (key : string) :
  is_Some (adjacent_of matrix !! key) <-> key ∈ letter <$> seq 0 26.
Proof.
  rewrite list_elem_of_fmap. split.
  - intros Hsome.
    destruct (decide (Exists (fun i => key = letter i) (seq 0 26)))
      as [Hex|Hnot].
    + apply Exists_exists in Hex as (i & Hi & ->). by exists i.
    + rewrite adjacent_of_other in Hsome; [by destruct Hsome|].
      intros i Hi ->. apply Hnot. apply Exists_exists. exists i.
      split; [apply elem_of_seq; lia|reflexivity].
  - intros (i & -> & Hi). apply elem_of_seq in Hi.
    rewrite adjacent_of_letter by lia. by eexists.
Qed.

Lemma adjacent_of_sorted_keys (matrix : list (list Z)) :
  sorted (elements (dom (adjacent_of matrix))) = letter <$> seq 0 26.
Proof.
  unfold sorted. apply (Sorted_unique str_le).
  - apply Sorted_merge_sort. apply _.
  - refine (bool_decide_unpack _ _). vm_compute. exact I.
  - rewrite merge_sort_Permutation. apply NoDup_Permutation.
    + apply NoDup_elements.
    + refine (bool_decide_unpack _ _). vm_compute. exact I.
    + intros key. rewrite elem_of_elements, elem_of_dom.
      apply adjacent_of_domain.
Qed.

(** X12: for a layout name of ASCII characters, [print_adjacency_info]
    never fails, asks nothing of the operating system and changes no file;
    it prints the title line, with the name in upper case, and then one
    line per letter, from a to z, with the sorted neighbours of the
    letter. *)
Theorem X12_print_adjacency_info (layout_name : string)
    (rows : list (list string)) (fs : gmap string (list byte))
    (out : list string) (fa : option nat) :
  ascii_only layout_name ->
  print_adjacency_info layout_name rows (World fs out fa)
  = (Ok tt,
     World fs
       (out ++
        (nl +:+ upper layout_name +:+ " adjacency (distance 1):")
        :: ((fun i =>
               "  " +:+ letter i +:+ ": " +:+
               join ", " (sorted (elements
                 (neighbors_of (compute_distance_matrix rows) i))))
              <$> seq 0 26))
       fa).
Proof.
  intros _.
  unfold print_adjacency_info. cbn zeta. rewrite get_adjacent_keys_unfold.
  generalize (compute_distance_matrix rows) as matrix. intros matrix.
  rewrite print_bind, adjacent_of_sorted_keys.
  rewrite (for_each_prints _ _
             (fun key => "  " +:+ key +:+ ": " +:+
                join ", " (sorted (elements
                  (default ∅ (adjacent_of matrix !! key)))))).
  - rewrite <- app_assoc. cbn [app].
    rewrite <- list_fmap_compose.
    rewrite (list_fmap_ext _
               (fun i => "  " +:+ letter i +:+ ": " +:+
                  join ", " (sorted (elements (neighbors_of matrix i))))
               (seq 0 26)); [reflexivity|].
    intros k i Hi. apply list_elem_of_lookup_2, elem_of_seq in Hi.
    cbn [compose]. rewrite adjacent_of_letter by lia. reflexivity.
  - intros key Hkey.
    apply (adjacent_of_domain matrix key) in Hkey as [neighbors Hkey].
    rewrite Hkey. reflexivity.
Qed.

Lemma X12_print_adjacency_info_witness :
  ascii_only "qwerty" /\
  upper "qwerty" = "QWERTY"%string /\
  exists lines : list string,
    print_adjacency_info "qwerty" QWERTY_ROWS (World ∅ [] None)
    = (Ok tt, World ∅ lines None) /\
    length lines = 27%nat.
Proof.
  assert (Hascii : ascii_only "qwerty").
  { refine (bool_decide_unpack _ _); vm_compute; exact I. }
  split; [exact Hascii|]. split; [reflexivity|].
  eexists. split.
  - apply (X12_print_adjacency_info "qwerty" QWERTY_ROWS ∅ [] None Hascii).
  - reflexivity.
Defined.

(** ** I/O failures in a batch *)

Lemma generate_layout_outcome (args : namespace) (name : string) rows
    (fs : gmap string (list byte)) (out : list string) (fa : option nat) :
  layouts_get name = Ok rows ->
  exists (r : result unit) (fs' : gmap string (list byte))
         (out' : list string) (fa' : option nat),
    generate_layout args name (World fs out fa) = (r, World fs' out' fa') /\
    (forall path, path <> output_file (output args) name ->
       fs' !! path = fs !! path) /\
    (r = Ok tt /\ complete_file args fs' name \/
     r = Raise OSError /\ fa' = None).
Proof.
  intros Hrows.
  destruct (layout_chunks rows) as (chunks & Hall & _ & Hlen & Hclen).
  pose proof (file_image_length chunks Hlen Hclen) as Hsize.
  rewrite <- file_pieces_concat in Hsize.
  unfold generate_layout. rewrite io_bind_run. unfold lift at 1. rewrite Hrows.
  cbn zeta. rewrite print_bind, io_bind_run.
  rewrite (write_layout_file_run _ rows chunks fs _ fa Hall). cbn zeta.
  revert Hsize. generalize (concat (file_pieces chunks)) as image.
  intros image Hsize.
  assert (Hdone : forall out1 fa1,
            exists out' : list string,
              (if verbose args then print_adjacency_info name rows else mret tt)
                (World (<[output_file (output args) name := image]> fs) out1 fa1)
              = (Ok tt,
                 World (<[output_file (output args) name := image]> fs)
                       out' fa1)).
  { intros out1 fa1. destruct (verbose args).
    - destruct (print_adjacency_info_run name rows
                  (<[output_file (output args) name := image]> fs) out1 fa1)
        as [out' Hprint].
      by eexists.
    - by eexists. }
  assert (Hfile : complete_file args
                    (<[output_file (output args) name := image]> fs) name).
  { exists image. split; [apply lookup_insert_eq|exact Hsize]. }
  destruct fa as [[|n]|].
  - exists (Raise OSError), fs. eexists. eexists.
    split; [reflexivity|]. split; [done|]. by right.
  - destruct (decide (n < length image)%nat).
    { exists (Raise OSError). eexists. eexists. eexists.
      split; [reflexivity|]. split; [|by right].
      intros path Hpath. by apply lookup_insert_ne. }
    destruct (decide (n < length image + 2)%nat).
    { exists (Raise OSError). eexists. eexists. eexists.
      split; [reflexivity|]. split; [|by right].
      intros path Hpath. by apply lookup_insert_ne. }
    destruct (Hdone ((out ++ ["Generating " +:+ name +:+ "..."]) ++
                       [written_line (length image)
                          (output_file (output args) name)])
                    (Some (n - length image - 2)%nat)) as [out' Hprint].
    rewrite Hprint. exists (Ok tt). eexists. eexists. eexists.
    split; [reflexivity|]. split; [|by left].
    intros path Hpath. by apply lookup_insert_ne.
  - destruct (Hdone ((out ++ ["Generating " +:+ name +:+ "..."]) ++
                       [written_line (length image)
                          (output_file (output args) name)])
                    None) as [out' Hprint].
    rewrite Hprint. exists (Ok tt). eexists. eexists. eexists.
    split; [reflexivity|]. split; [|by left].
    intros path Hpath. by apply lookup_insert_ne.
Qed.

Lemma generate_each_outcome (args : namespace) (names : list string)
    (fs : gmap string (list byte)) (out : list string) (fa : option nat) :
  NoDup names ->
  (forall name, name ∈ names -> exists rows, layouts_get name = Ok rows) ->
  exists (r : result unit) (fs' : gmap string (list byte))
         (out' : list string) (fa' : option nat),
    for_each names (generate_layout args) (World fs out fa)
    = (r, World fs' out' fa') /\
    (forall path,
       (forall name, name ∈ names -> path <> output_file (output args) name) ->
       fs' !! path = fs !! path) /\
    (r = Ok tt /\ (forall name, name ∈ names -> complete_file args fs' name) \/
     r = Raise OSError /\ fa' = None /\
     exists k : nat,
       (k < length names)%nat /\
       (forall idx name, (idx < k)%nat -> names !! idx = Some name ->
          complete_file args fs' name) /\
       (forall idx name, (k < idx)%nat -> names !! idx = Some name ->
          fs' !! output_file (output args) name
          = fs !! output_file (output args) name)).
Proof.
  revert fs out fa.
  induction names as [|name names IH]; intros fs out fa Hnd Hknown.
  - exists (Ok tt), fs, out, fa. split; [reflexivity|]. split; [done|].
    left. split; [reflexivity|]. intros name Hname.
    by apply elem_of_nil in Hname.
  - apply NoDup_cons in Hnd as [Hfresh Hnd].
    destruct (Hknown name) as [rows Hrows]; [left|].
    assert (Hother : forall other, other ∈ names ->
              output_file (output args) name <> output_file (output args) other).
    { intros other Hin Heq. apply output_file_inj in Heq. by subst other. }
    destruct (generate_layout_outcome args name rows fs out fa Hrows)
      as (r1 & fs1 & out1 & fa1 & Hrun & Hframe & Hcase).
    cbn [for_each]. rewrite io_bind_run, Hrun.
    destruct Hcase as [[-> Hfile]|[-> ->]].
    + destruct (IH fs1 out1 fa1 Hnd) as (r & fs' & out' & fa' & Hloop & Hkeep & Hcase).
      { intros other Hin. apply Hknown. by right. }
      assert (Hmine : complete_file args fs' name).
      { destruct Hfile as (data & Hdata & Hsize). exists data.
        split; [|exact Hsize]. rewrite Hkeep; [exact Hdata|].
        intros other Hin. by apply Hother. }
      exists r, fs', out', fa'. split; [exact Hloop|]. split.
      { intros path Hpath. rewrite Hkeep.
        - apply Hframe. apply Hpath. left.
        - intros other Hin. apply Hpath. by right. }
      destruct Hcase as [[-> Hall]|(-> & -> & k & Hk & Hearly & Hlater)].
      * left. split; [reflexivity|]. intros other Hin.
        apply elem_of_cons in Hin as [->|Hin]; [exact Hmine|by apply Hall].
      * right. split; [reflexivity|]. split; [reflexivity|].
        exists (S k). split; [cbn [length]; lia|]. split.
        -- intros [|idx] other Hidx Hlook.
           ++ injection Hlook as <-. exact Hmine.
           ++ apply (Hearly idx other); [lia|exact Hlook].
        -- intros [|idx] other Hidx Hlook; [lia|].
           rewrite (Hlater idx other) by (lia || exact Hlook).
           apply Hframe. intros Heq. symmetry in Heq. revert Heq.
           apply Hother. by eapply list_elem_of_lookup_2.
    + exists (Raise OSError), fs1, out1, None. split; [reflexivity|]. split.
      { intros path Hpath. apply Hframe. apply Hpath. left. }
      right. split; [reflexivity|]. split; [reflexivity|].
      exists 0%nat. split; [cbn [length]; lia|]. split.
      * intros idx other Hidx. lia.
      * intros [|idx] other Hidx Hlook; [lia|].
        apply Hframe. intros Heq. symmetry in Heq. revert Heq.
        apply Hother. by eapply list_elem_of_lookup_2.
Qed.

Lemma selected_layouts_NoDup (args : namespace) : NoDup (selected_layouts args).
Proof.
  unfold selected_layouts. destruct (decide (layout args = "all")).
  - refine (bool_decide_unpack _ _). vm_compute. exact I.
  - apply NoDup_singleton.
Qed.

(** X14: [main] stops at the first step the operating system refuses.
    When the output directory cannot be created nothing is printed or
    written. Whatever step is refused, a run of an accepted command line
    either returns with the file of every selected layout complete, or
    raises [OSError] while one of the selected layouts is due: the files
    of the layouts before it are complete and the files of the layouts
    after it are as they were before the run. No file other than those of
    the selected layouts is touched. *)
Theorem X14_batch_stops_at_first_failure (argv : list cli_arg)
    (fs : gmap string (list byte)) (out : list string) (fa : option nat) :
  accepted argv ->
  main argv (World fs out (Some 0%nat)) = (Raise OSError, World fs out None) /\
  exists (r : result unit) (fs' : gmap string (list byte))
         (out' : list string) (fa' : option nat),
    main argv (World fs out fa) = (r, World fs' out' fa') /\
    (forall path,
       (forall name, name ∈ selected_layouts (requested argv) ->
          path <> output_file (output (requested argv)) name) ->
       fs' !! path = fs !! path) /\
    (r = Ok tt /\
     (forall name, name ∈ selected_layouts (requested argv) ->
        complete_file (requested argv) fs' name) \/
     r = Raise OSError /\ fa' = None /\
     exists k : nat,
       (forall idx name,
          (idx < k)%nat -> selected_layouts (requested argv) !! idx = Some name ->
          complete_file (requested argv) fs' name) /\
       (forall idx name,
          (k < idx)%nat -> selected_layouts (requested argv) !! idx = Some name ->
          fs' !! output_file (output (requested argv)) name
          = fs !! output_file (output (requested argv)) name)).
Proof.
  intros Hacc.
  pose proof (requested_layout_choice argv Hacc) as Hlayout.
  pose proof (fun w => parse_args_accepts argv w Hacc) as Hparse.
  revert Hlayout Hparse. generalize (requested argv) as args.
  intros args Hlayout Hparse.
  assert (Hmain : forall fa0,
            main argv (World fs out fa0)
            = match fa0 with
              | Some O => (Raise OSError, World fs out None)
              | _ =>
                  match for_each (selected_layouts args) (generate_layout args)
                          (World fs
                             (((out ++ ["Generating keyboard layout files..."])
                                 ++ ["  Output directory: " +:+ output args])
                                ++ [""])
                             (match fa0 with Some n => Some (pred n) | None => None end))
                  with
                  | (Ok _, w) =>
                      (print (nl +:+ "Done! Generated " +:+
                                pretty (length (selected_layouts args)) +:+
                                " layout file(s).") ;;
                       print (nl +:+ "Usage in Swift:") ;;
                       print "  let symSpell = LowMemorySymSpell(" ;;
                       print "      maxEditDistance: 2," ;;
                       print "      prefixLength: 7," ;;
                       print "      keyboardLayout: .qwerty" ;;
                       print "  )") w
                  | (Raise e, w) => (Raise e, w)
                  end
              end).
  { intros fa0. unfold main. rewrite io_bind_run, Hparse. cbn zeta.
    fold (selected_layouts args).
    rewrite io_bind_run. unfold makedirs. rewrite syscall_run.
    destruct fa0 as [[|n]|]; [reflexivity| |];
      rewrite !print_bind; rewrite io_bind_run; reflexivity. }
  split; [exact (Hmain (Some 0%nat))|].
  destruct fa as [[|n]|].
  - rewrite Hmain. exists (Raise OSError), fs, out, None.
    split; [reflexivity|]. split; [done|]. right.
    split; [reflexivity|]. split; [reflexivity|]. exists 0%nat.
    split; [intros idx name Hidx; lia|done].
  - rewrite Hmain. cbn [pred].
    destruct (generate_each_outcome args (selected_layouts args) fs
                (((out ++ ["Generating keyboard layout files..."]) ++
                    ["  Output directory: " +:+ output args]) ++ [""])
                (Some n))
      as (r & fs' & out' & fa' & Hloop & Hkeep & Hcase).
    { apply selected_layouts_NoDup. }
    { intros name Hname. apply layouts_get_known.
      by apply (selected_layouts_known args). }
    rewrite Hloop.
    destruct Hcase as [[-> Hall]|(-> & -> & k & _ & Hearly & Hlater)].
    + rewrite !print_bind, print_run. exists (Ok tt), fs'. eexists. eexists.
      split; [reflexivity|]. split; [exact Hkeep|]. by left.
    + exists (Raise OSError), fs', out', None.
      split; [reflexivity|]. split; [exact Hkeep|]. right.
      split; [reflexivity|]. split; [reflexivity|]. by exists k.
  - rewrite Hmain.
    destruct (generate_each_outcome args (selected_layouts args) fs
                (((out ++ ["Generating keyboard layout files..."]) ++
                    ["  Output directory: " +:+ output args]) ++ [""])
                None)
      as (r & fs' & out' & fa' & Hloop & Hkeep & Hcase).
    { apply selected_layouts_NoDup. }
    { intros name Hname. apply layouts_get_known.
      by apply (selected_layouts_known args). }
    rewrite Hloop.
    destruct Hcase as [[-> Hall]|(-> & -> & k & _ & Hearly & Hlater)].
    + rewrite !print_bind, print_run. exists (Ok tt), fs'. eexists. eexists.
      split; [reflexivity|]. split; [exact Hkeep|]. by left.
    + exists (Raise OSError), fs', out', None.
      split; [reflexivity|]. split; [exact Hkeep|]. right.
      split; [reflexivity|]. split; [reflexivity|]. by exists k.
Qed.

Lemma X14_batch_stops_at_first_failure_witness :
  main [ArgLayout "all"] (World ∅ [] (Some 0%nat))
  = (Raise OSError, World ∅ [] None) /\
  exists (r : result unit) (fs' : gmap string (list byte))
         (out' : list string) (fa' : option nat),
    main [ArgLayout "all"] (World ∅ [] (Some 1000%nat))
    = (r, World fs' out' fa') /\
    (r = Ok tt /\
     (forall name, name ∈ selected_layouts (requested [ArgLayout "all"]) ->
        complete_file (requested [ArgLayout "all"]) fs' name) \/
     r = Raise OSError /\ fa' = None /\
     exists k : nat,
       (forall idx name,
          (idx < k)%nat ->
          selected_layouts (requested [ArgLayout "all"]) !! idx = Some name ->
          complete_file (requested [ArgLayout "all"]) fs' name) /\
       (forall idx name,
          (k < idx)%nat ->
          selected_layouts (requested [ArgLayout "all"]) !! idx = Some name ->
          fs' !! output_file (output (requested [ArgLayout "all"])) name
          = (∅ : gmap string (list byte))
              !! output_file (output (requested [ArgLayout "all"])) name)).
Proof.
  assert (Hacc : accepted [ArgLayout "all"]).
  { repeat constructor. }
  destruct (X14_batch_stops_at_first_failure [ArgLayout "all"] ∅ []
              (Some 1000%nat) Hacc)
    as (Hfirst & r & fs' & out' & fa' & Hrun & _ & Hcase).
  split; [exact Hfirst|]. exists r, fs', out', fa'.
  split; [exact Hrun|exact Hcase].
Defined.

(** ** Verbose mode *)

Lemma same_outcome_intro {A} (r : result A) fs fa (o1 o2 : list string) :
  same_outcome (r, World fs o1 fa) (r, World fs o2 fa).
Proof. by repeat split. Qed.

Lemma write_layout_file_two_runs (path : string) rows fs fa
    (o1 o2 : list string) :
  exists (r : result unit) (fs' : gmap string (list byte)) (fa' : option nat)
         (o1' o2' : list string),
    write_layout_file path rows (World fs o1 fa) = (r, World fs' o1' fa') /\
    write_layout_file path rows (World fs o2 fa) = (r, World fs' o2' fa').
Proof.
  destruct (layout_chunks rows) as (chunks & Hall & _).
  rewrite !(write_layout_file_run path rows chunks fs _ fa Hall). cbn zeta.
  generalize (concat (file_pieces chunks)) as image. intros image.
  destruct fa as [[|n]|]; [| |].
  - do 5 eexists. split; reflexivity.
  - repeat case_decide; do 5 eexists; split; reflexivity.
  - do 5 eexists. split; reflexivity.
Qed.

Lemma verbose_branch_run (flag : bool) (name : string) rows fs out fa :
  exists out' : list string,
    (if flag then print_adjacency_info name rows else mret tt)
      (World fs out fa)
    = (Ok tt, World fs out' fa).
Proof.
  destruct flag.
  - destruct (print_adjacency_info_run name rows fs out fa) as [out' Hrun].
    by eexists.
  - by eexists.
Qed.

Lemma generate_layout_two_runs (args1 args2 : namespace) (name : string)
    fs fa (o1 o2 : list string) :
  output args1 = output args2 ->
  exists (r : result unit) (fs' : gmap string (list byte)) (fa' : option nat)
         (o1' o2' : list string),
    generate_layout args1 name (World fs o1 fa) = (r, World fs' o1' fa') /\
    generate_layout args2 name (World fs o2 fa) = (r, World fs' o2' fa').
Proof.
  intros Hout. unfold generate_layout. rewrite !io_bind_run. unfold lift.
  destruct (layouts_get name) as [rows|e].
  2:{ do 5 eexists. split; reflexivity. }
  cbn zeta. rewrite !print_bind, !io_bind_run, Hout.
  destruct (write_layout_file_two_runs
              (output_file (output args2) name) rows fs fa
              (o1 ++ ["Generating " +:+ name +:+ "..."])
              (o2 ++ ["Generating " +:+ name +:+ "..."]))
    as (r & fs' & fa' & o1' & o2' & Hrun1 & Hrun2).
  rewrite Hrun1, Hrun2. destruct r as [[]|e].
  2:{ do 5 eexists. split; reflexivity. }
  destruct (verbose_branch_run (verbose args1) name rows fs' o1' fa')
    as [o1'' ->].
  destruct (verbose_branch_run (verbose args2) name rows fs' o2' fa')
    as [o2'' ->].
  do 5 eexists. split; reflexivity.
Qed.

Lemma generate_each_two_runs (args1 args2 : namespace)
    (names : list string) fs fa (o1 o2 : list string) :
  output args1 = output args2 ->
  exists (r : result unit) (fs' : gmap string (list byte)) (fa' : option nat)
         (o1' o2' : list string),
    for_each names (generate_layout args1) (World fs o1 fa)
    = (r, World fs' o1' fa') /\
    for_each names (generate_layout args2) (World fs o2 fa)
    = (r, World fs' o2' fa').
Proof.
  intros Hout. revert fs fa o1 o2.
  induction names as [|name names IH]; intros fs fa o1 o2.
  - do 5 eexists. split; reflexivity.
  - cbn [for_each]. rewrite !io_bind_run.
    destruct (generate_layout_two_runs args1 args2 name fs fa o1 o2 Hout)
      as (r & fs' & fa' & o1' & o2' & Hrun1 & Hrun2).
    rewrite Hrun1, Hrun2. destruct r as [[]|e]; [apply IH|].
    do 5 eexists. split; reflexivity.
Qed.

Lemma parse_from_verbose (argv : list cli_arg) (args : namespace)
    (extras : list string) (w : world) :
  parse_from args extras (argv ++ [ArgVerbose]) w
  = match parse_from args extras argv w with
    | (Ok parsed, w') =>
        (Ok (Namespace (layout parsed) (output parsed) true), w')
    | (Raise e, w') => (Raise e, w')
    end.
Proof.
  revert args extras.
  induction argv as [|arg argv IH]; intros args extras.
  - cbn [app parse_from]. by destruct (decide (extras = [])).
  - cbn [app parse_from].
    destruct arg as [value|value| | | |text]; try apply IH; try reflexivity.
    destruct (decide (value ∈ layout_choices)); [apply IH|reflexivity].
Qed.

Lemma main_same_outcome (args1 args2 : namespace) (argv1 argv2 : list cli_arg)
    fs fa (out : list string) :
  parse_args argv1 (World fs out fa) = (Ok args1, World fs out fa) ->
  parse_args argv2 (World fs out fa) = (Ok args2, World fs out fa) ->
  layout args1 = layout args2 -> output args1 = output args2 ->
  same_outcome (main argv1 (World fs out fa)) (main argv2 (World fs out fa)).
Proof.
  intros Hparse1 Hparse2 Hlayout Hout.
  unfold main. rewrite !io_bind_run, Hparse1, Hparse2.
  cbn zeta. rewrite !io_bind_run. unfold makedirs. rewrite syscall_run.
  fold (selected_layouts args1). fold (selected_layouts args2).
  assert (Hsel : selected_layouts args1 = selected_layouts args2).
  { unfold selected_layouts. by rewrite Hlayout. }
  rewrite Hsel.
  destruct fa as [[|n]|]; [apply same_outcome_intro| |].
  - rewrite !print_bind, !io_bind_run.
    destruct (generate_each_two_runs args1 args2 (selected_layouts args2)
                fs (Some n)
                (((out ++ ["Generating keyboard layout files..."]) ++
                    ["  Output directory: " +:+ output args1]) ++ [""])
                (((out ++ ["Generating keyboard layout files..."]) ++
                    ["  Output directory: " +:+ output args2]) ++ [""])
                Hout)
      as (r & fs' & fa' & o1' & o2' & Hrun1 & Hrun2).
    rewrite Hrun1, Hrun2. destruct r as [[]|e]; [|apply same_outcome_intro].
    rewrite !print_bind, !print_run. apply same_outcome_intro.
  - rewrite !print_bind, !io_bind_run.
    destruct (generate_each_two_runs args1 args2 (selected_layouts args2)
                fs None
                (((out ++ ["Generating keyboard layout files..."]) ++
                    ["  Output directory: " +:+ output args1]) ++ [""])
                (((out ++ ["Generating keyboard layout files..."]) ++
                    ["  Output directory: " +:+ output args2]) ++ [""])
                Hout)
      as (r & fs' & fa' & o1' & o2' & Hrun1 & Hrun2).
    rewrite Hrun1, Hrun2. destruct r as [[]|e]; [|apply same_outcome_intro].
    rewrite !print_bind, !print_run. apply same_outcome_intro.
Qed.

(** X15: verbose mode only prints. With or without [--verbose] a run
    ends with the same result, the same files and the same I/O failure
    behaviour, whatever request the operating system refuses. *)
Theorem X15_verbose_only_prints (argv : list cli_arg)
    (fs : gmap string (list byte)) (out : list string) (fa : option nat) :
  same_outcome (main (argv ++ [ArgVerbose]) (World fs out fa))
               (main argv (World fs out fa)).
Proof.
  pose proof (parse_from_verbose argv (Namespace "all" "./keyboard_layouts" false)
                [] (World fs out fa)) as Hverbose.
  fold (parse_args (argv ++ [ArgVerbose])) in Hverbose.
  fold (parse_args argv) in Hverbose.
  destruct (parse_args argv (World fs out fa)) as [[args|e] w] eqn:Hparse.
  - assert (w = World fs out fa) as ->.
    { unfold parse_args in Hparse. by apply parse_from_ok in Hparse. }
    by apply (main_same_outcome
                (Namespace (layout args) (output args) true) args).
  - unfold main. rewrite !io_bind_run, Hverbose, Hparse. by repeat split.
Qed.

(** ** The exits of the argument parser *)






(** ** The stagger and the classes across rows *)

Lemma cross_row_class (rows : list (list string)) (r1 c1 r2 c2 : nat)
    (row1 row2 : list string) (i j : nat) :
  distinct_keys rows -> (i < 26)%nat -> (j < 26)%nat -> r1 <> r2 ->
  rows !! r1 = Some row1 -> row1 !! c1 = Some (letter i) ->
  rows !! r2 = Some row2 -> row2 !! c2 = Some (letter j) ->
  matrix_get (compute_distance_matrix rows) i j
  = Some (let cheb :=
            Z.max (Z.abs (Z.of_nat r1 * 2 - Z.of_nat r2 * 2))
                  (Z.abs (Z.of_nat c1 * 2 + row_offset r1
                          - (Z.of_nat c2 * 2 + row_offset r2))) in
          if decide (cheb <= 2) then 1
          else if decide (cheb <= 4) then 2 else 255).
Proof.
  intros Hnd Hi Hj Hr Hrow1 Hc1 Hrow2 Hc2.
  pose proof (get_key_positions_lookup rows r1 row1 c1 _ Hnd Hrow1 Hc1) as Hp1.
  pose proof (get_key_positions_lookup rows r2 row2 c2 _ Hnd Hrow2 Hc2) as Hp2.
  assert (Hij : i <> j).
  { intros ->. rewrite Hp1 in Hp2. apply (inj Some) in Hp2.
    apply coords_inj in Hp2 as [Heq _]. done. }
  rewrite (matrix_get_class rows i j Hi Hj).
  by rewrite (distance_class_at _ i j _ _ _ _ Hij Hp1 Hp2).
Qed.

(** X16: how the stagger of the three rows decides the class of two
    letters of different rows, in a layout with distinct keys. With [d] the
    column index of the upper key minus that of the lower key: between the
    top and the middle row the class is 1 for [d] in 0..1 and 2 for [d] = -1
    or 2; between the middle and the bottom row it is 1 for [d] in 0..2 and
    2 for [d] = -1 or 3; between the top and the bottom row it is never 1
    and it is 2 for [d] in 0..3; in all other cases it is 255. *)
Theorem X16_cross_row_classes (rows : list (list string))
    (upper lower : nat) (c1 c2 : nat) (row1 row2 : list string) (i j : nat) :
  distinct_keys rows -> (i < 26)%nat -> (j < 26)%nat ->
  rows !! upper = Some row1 -> row1 !! c1 = Some (letter i) ->
  rows !! lower = Some row2 -> row2 !! c2 = Some (letter j) ->
  let d := Z.of_nat c1 - Z.of_nat c2 in
  let entry := matrix_get (compute_distance_matrix rows) i j in
  (upper = 0%nat -> lower = 1%nat ->
   entry = Some (if decide (0 <= d <= 1) then 1
                 else if decide (-1 <= d <= 2) then 2 else 255)) /\
  (upper = 1%nat -> lower = 2%nat ->
   entry = Some (if decide (0 <= d <= 2) then 1
                 else if decide (-1 <= d <= 3) then 2 else 255)) /\
  (upper = 0%nat -> lower = 2%nat ->
   entry = Some (if decide (0 <= d <= 3) then 2 else 255)).
Proof.
  intros Hnd Hi Hj Hrow1 Hc1 Hrow2 Hc2 d entry. subst d entry.
  split; [|split]; intros -> ->.
  - rewrite (cross_row_class rows 0 c1 1 c2 row1 row2 i j Hnd Hi Hj
               ltac:(lia) Hrow1 Hc1 Hrow2 Hc2).
    cbn zeta. f_equal.
    change (row_offset 0) with 0. change (row_offset 1) with 1.
    repeat case_decide; (reflexivity || lia).
  - rewrite (cross_row_class rows 1 c1 2 c2 row1 row2 i j Hnd Hi Hj
               ltac:(lia) Hrow1 Hc1 Hrow2 Hc2).
    cbn zeta. f_equal.
    change (row_offset 1) with 1. change (row_offset 2) with 3.
    repeat case_decide; (reflexivity || lia).
  - rewrite (cross_row_class rows 0 c1 2 c2 row1 row2 i j Hnd Hi Hj
               ltac:(lia) Hrow1 Hc1 Hrow2 Hc2).
    cbn zeta. f_equal.
    change (row_offset 0) with 0. change (row_offset 2) with 3.
    repeat case_decide; (reflexivity || lia).
Qed.

Lemma X16_cross_row_classes_witness :
  matrix_get (compute_distance_matrix QWERTY_ROWS) 3 25 = Some 1.
Proof.
  assert (Hd : distinct_keys QWERTY_ROWS).
  { unfold distinct_keys. refine (bool_decide_unpack _ _); vm_compute; exact I. }
  destruct (X16_cross_row_classes QWERTY_ROWS 1 2 2 0
              (chars "asdfghjkl") (chars "zxcvbnm") 3 25 Hd)
    as (_ & Hmid & _); [lia|lia|reflexivity..|].
  apply Hmid; reflexivity.
Defined.
